(** * WebWormhole: the rtcpipe bulk pipe and the browser handshake

    A shallow embedding of
    - [cmd/rtcpipe/main.go]: [dial] (one-shot offer/answer exchange with the
      signalling server) and the data pump of [main];
    - [web/ww.ts]: the [Wormhole] class (PAKE + WebRTC signalling state
      machine over a WebSocket).

    External collaborators (pion/webrtc, net/http, the WebSocket, the WASM
    [webwormhole] object, [JSON], [URL], [RTCPeerConnection]) are not part of
    the repository: their answers are taken from an explicit environment and
    the calls made to them are recorded. *)

From Stdlib Require Import ZArith List String Ascii Bool Lia DecimalString.
From Stdlib Require Import Strings.Byte.
Import ListNotations.
Open Scope string_scope.
Open Scope Z_scope.
Open Scope list_scope.

(* ===================================================================== *)
(** * cmd/rtcpipe/main.go *)
(* ===================================================================== *)

Module Rtcpipe.

(** ** Data *)

(** [webrtc.SDPType] (pion/webrtc v2). The zero value is what a response
    without a [type] field decodes to. *)
Inductive SDPType :=
| SDPTypeUnknown
| SDPTypeOffer
| SDPTypePranswer
| SDPTypeAnswer
| SDPTypeRollback.

(** [webrtc.SessionDescription]; the Go field [Type] is spelled [Type_]. *)
Record SessionDescription := { Type_ : SDPType; SDP : string }.

(** [http.Response], the fields [dial] reads. *)
Record Response := { StatusCode : Z; Status : string; Body : string }.

Definition StatusOK : Z := 200.

(** Handles of the objects allocated by the webrtc API: the n-th
    [NewPeerConnection] yields handle [n]; a data channel carries the handle
    of the connection it was created on. *)
Definition PeerConnection := nat.

(** [webrtc.DataChannel]: the two quantities the pipe reads. *)
Record DataChannel := {
  dc_pc : PeerConnection;
  BufferedAmountLowThreshold : Z;
  BufferedAmount : Z }.

(** [type conn struct]: [rwc], [opened], [err] and [flushc] are the
    synchronisation devices modelled by the pump below. *)
Record conn := { d : DataChannel; pc : PeerConnection }.

(** Calls that [dial] makes on the webrtc API and on net/http, in order.
    [OnOpen p], [OnError p] and [OnBufferedAmountLow p] register [c.open],
    [c.error] and [c.flushed] on the data channel of endpoint [p]. *)
Inductive Call :=
| NewPeerConnection
| CreateDataChannel (p : PeerConnection)
| OnOpen (p : PeerConnection)
| OnError (p : PeerConnection)
| OnBufferedAmountLow (p : PeerConnection)
| SetBufferedAmountLowThreshold (p : PeerConnection) (th : Z)
| CreateOffer (p : PeerConnection)
| CreateAnswer (p : PeerConnection)
| SetLocalDescription (p : PeerConnection) (sd : SessionDescription)
| SetRemoteDescription (p : PeerConnection) (sd : SessionDescription)
| Post (url body : string)
| Select.

(** Go [error] values returned by [dial]. *)
Inductive error :=
| ErrCall (c : Call)                   (* error returned by that call *)
| ErrMarshal
| ErrDecode
| ErrStatus (status : string)          (* "signalling server returned status %v" *)
| ErrUnknownSdpType (t : SDPType)      (* "unknown sdp type: %v" *)
| ErrChannel (msg : string).           (* received from c.err *)

(** The answers of the outside world. *)
Record World := {
  newPeerConnection : PeerConnection -> bool;
  createDataChannel : PeerConnection -> bool;
  createOffer : PeerConnection -> option string;
  createAnswer : PeerConnection -> option string;
  setLocalDescription : PeerConnection -> SessionDescription -> bool;
  setRemoteDescription : PeerConnection -> SessionDescription -> bool;
  marshal : SessionDescription -> option string;
  post : string -> string -> option Response;
  decode : string -> option SessionDescription;
  (** which of [<-c.opened] and [<-c.err] the final select takes *)
  selected : option string }.

(** ** The monad of [dial]: a log of calls and early return of an error *)

Definition M (A : Type) : Type := list Call -> (error + A) * list Call.

Definition ret {A} (x : A) : M A := fun log => (inr x, log).

Definition bind {A B} (m : M A) (f : A -> M B) : M B :=
  fun log =>
    match m log with
    | (inl e, log') => (inl e, log')
    | (inr x, log') => f x log'
    end.

Definition raise {A} (e : error) : M A := fun log => (inl e, log).

Notation "x <- m ;; k" := (bind m (fun x => k))
  (at level 61, m at next level, right associativity).
Notation "m ;;; k" := (bind m (fun _ => k))
  (at level 61, right associativity).

(** A call that cannot fail. *)
Definition call (c : Call) : M unit := fun log => (inr tt, log ++ [c]).

(** A call returning [(value, err)]. *)
Definition try_call {A} (c : Call) (r : option A) : M A :=
  fun log =>
    match r with
    | Some x => (inr x, log ++ [c])
    | None => (inl (ErrCall c), log ++ [c])
    end.

Definition try_ok (c : Call) (ok : bool) : M unit :=
  try_call c (if ok then Some tt else None).

Definition lift {A} (e : error) (r : option A) : M A :=
  match r with Some x => ret x | None => raise e end.

Definition is_NewPeerConnection (c : Call) : bool :=
  match c with NewPeerConnection => true | _ => false end.

(** Number of endpoints allocated so far. *)
Definition allocations (log : list Call) : nat :=
  List.length (filter is_NewPeerConnection log).

(** [rtcapi.NewPeerConnection(webRTCConfig)] *)
Definition NewPC (w : World) : M PeerConnection :=
  fun log =>
    let p := allocations log in
    try_call NewPeerConnection
      (if newPeerConnection w p then Some p else None) log.

(** [512 << 10] and [32 << 10] *)
Definition lowWaterMark : Z := Z.shiftl 512 10.
Definition bufSize : Z := Z.shiftl 32 10.

(** ** [dial] *)

(** Lines 80-120: allocate the endpoint and the negotiated data channel,
    create the offer, post it, decode the response. *)
Definition dial_post_offer (w : World) (slot sigserv : string)
  : M (conn * SessionDescription) :=
  p <- NewPC w ;;
  try_ok (CreateDataChannel p) (createDataChannel w p) ;;;
  call (OnOpen p) ;;;
  call (OnError p) ;;;
  call (OnBufferedAmountLow p) ;;;
  call (SetBufferedAmountLowThreshold p lowWaterMark) ;;;
  let c := {| d := {| dc_pc := p; BufferedAmountLowThreshold := lowWaterMark;
                      BufferedAmount := 0 |};
              pc := p |} in
  sdp <- try_call (CreateOffer p) (createOffer w p) ;;
  let offer := {| Type_ := SDPTypeOffer; SDP := sdp |} in
  try_ok (SetLocalDescription p offer) (setLocalDescription w p offer) ;;;
  o <- lift ErrMarshal (marshal w offer) ;;
  res <- try_call (Post (sigserv ++ slot) o) (post w (sigserv ++ slot) o) ;;
  if negb (StatusCode res =? StatusOK) then raise (ErrStatus (Status res))
  else
    remote <- lift ErrDecode (decode w (Body res)) ;;
    ret (c, remote).

(** Lines 121-173: [switch remote.Type]. *)
Definition dial_switch (w : World) (slot sigserv : string)
    (c : conn) (remote : SessionDescription) : M conn :=
  match Type_ remote with
  | SDPTypeOffer =>
      (* The webrtc package does not support rollback.
         Make a new PeerConnection object. *)
      p <- NewPC w ;;
      try_ok (CreateDataChannel p) (createDataChannel w p) ;;;
      call (OnOpen p) ;;;
      call (OnError p) ;;;
      call (OnBufferedAmountLow p) ;;;
      call (SetBufferedAmountLowThreshold p lowWaterMark) ;;;
      let c := {| d := {| dc_pc := p; BufferedAmountLowThreshold := lowWaterMark;
                          BufferedAmount := 0 |};
                  pc := p |} in
      try_ok (SetRemoteDescription p remote) (setRemoteDescription w p remote) ;;;
      sdp <- try_call (CreateAnswer p) (createAnswer w p) ;;
      let answer := {| Type_ := SDPTypeAnswer; SDP := sdp |} in
      try_ok (SetLocalDescription p answer) (setLocalDescription w p answer) ;;;
      a <- lift ErrMarshal (marshal w answer) ;;
      res <- try_call (Post (sigserv ++ slot) a) (post w (sigserv ++ slot) a) ;;
      if negb (StatusCode res =? StatusOK) then raise (ErrStatus (Status res))
      else ret c
  | SDPTypeAnswer =>
      try_ok (SetRemoteDescription (pc c) remote)
            (setRemoteDescription w (pc c) remote) ;;;
      ret c
  | t => raise (ErrUnknownSdpType t)
  end.

(** Lines 175-180: [select] on [c.opened] and [c.err]. *)
Definition dial_select (w : World) (c : conn) : M conn :=
  call Select ;;;
  match selected w with
  | None => ret c
  | Some msg => raise (ErrChannel msg)
  end.

Definition dial (w : World) (slot sigserv : string) : M conn :=
  cr <- dial_post_offer w slot sigserv ;;
  c <- dial_switch w slot sigserv (fst cr) (snd cr) ;;
  dial_select w c.

(** ** The data pump of [main] (lines 207-269)

    Three flows of control share the connection: the receive goroutine
    ([io.Copy(os.Stdout, c.rwc)]), the send goroutine (the buffered write
    loop) and [main] itself, which receives from the unbuffered channel
    [done] and then tears the connection down. The transport runs beside
    them: it transmits queued bytes and invokes [c.flushed]. One [Event] is
    one atomic step of one of them; a step that is blocked is [None]. *)

(** Non-nil Go [error] values of the copy loops; [nil] is [None]. *)
Inductive ioerr := EOF | ErrShortWrite | ErrIO (msg : string).

Inductive Direction := Drain | Fill.

(** Program points of the receive goroutine. *)
Inductive DrainPc :=
| D_Copy        (* inside io.Copy *)
| D_Done        (* at [done <- struct{}{}] *)
| D_Exit.

(** Program points of the send goroutine. *)
Inductive FillPc :=
| F_Lock        (* at c.flushc.L.Lock() *)
| F_Check       (* evaluating the loop condition, lock held *)
| F_Wait        (* suspended in c.flushc.Wait(), lock released *)
| F_Woken       (* signalled; Wait re-acquires the lock before returning *)
| F_Unlock      (* at c.flushc.L.Unlock() *)
| F_Read        (* at os.Stdin.Read(buf) *)
| F_Write (nr : Z) (er : option ioerr)   (* at c.rwc.Write(buf[0:nr]) *)
| F_Done        (* at [done <- struct{}{}] *)
| F_Exit.

(** Program points of [main] from line 262 on. *)
Inductive MainPc :=
| M_Done        (* at [<-done] *)
| M_Poll        (* evaluating c.d.BufferedAmount() != 0 *)
| M_Sleep       (* in time.Sleep(time.Second) *)
| M_CloseRwc    (* at c.rwc.Close() *)
| M_CloseD      (* at c.d.Close() *)
| M_ClosePc     (* at c.pc.Close() *)
| M_Return.     (* main returned: the process is gone *)

Record Pump := {
  chan : DataChannel;          (* c.d *)
  locked : bool;               (* c.flushc.L is held *)
  drain : DrainPc;
  fill : FillPc;
  fill_err : option ioerr;     (* var err error *)
  fill_n : Z;                  (* n *)
  main : MainPc }.

Inductive Event :=
| CopyReturns (er : option ioerr)          (* io.Copy returns *)
| FillStep                                 (* next lock / check / unlock statement *)
| StdinRead (nr : Z) (er : option ioerr)   (* os.Stdin.Read returns (nr, er) *)
| ChannelWrite (nw : Z) (ew : option ioerr)(* c.rwc.Write returns (nw, ew) *)
| Flushed                                  (* the transport calls c.flushed *)
| Transmitted (k : Z)                      (* the transport sends k queued bytes *)
| Handoff (who : Direction)                (* a send on done meets main's receive *)
| MainStep.

(** What an observer of the pipe sees. *)
Inductive Obs :=
| Blocked (buffered : Z)              (* the sender entered Wait *)
| Resumed                             (* the sender returned from Wait *)
| Wrote (buffered : Z) (nr : Z)       (* Write of nr bytes issued, amount queued then *)
| Reported (who : Direction)          (* completion received by main *)
| Polled (buffered : Z)               (* main read BufferedAmount *)
| ClosedRwc
| ClosedChannel
| ClosedConnection.

Definition set_buffered (b : Z) (s : Pump) : Pump :=
  {| chan := {| dc_pc := dc_pc (chan s);
                BufferedAmountLowThreshold := BufferedAmountLowThreshold (chan s);
                BufferedAmount := b |};
     locked := locked s; drain := drain s; fill := fill s;
     fill_err := fill_err s; fill_n := fill_n s; main := main s |}.

Definition set_locked (l : bool) (s : Pump) : Pump :=
  {| chan := chan s; locked := l; drain := drain s; fill := fill s;
     fill_err := fill_err s; fill_n := fill_n s; main := main s |}.

Definition set_drain (p : DrainPc) (s : Pump) : Pump :=
  {| chan := chan s; locked := locked s; drain := p; fill := fill s;
     fill_err := fill_err s; fill_n := fill_n s; main := main s |}.

Definition set_fill (p : FillPc) (s : Pump) : Pump :=
  {| chan := chan s; locked := locked s; drain := drain s; fill := p;
     fill_err := fill_err s; fill_n := fill_n s; main := main s |}.

Definition set_err (e : option ioerr) (s : Pump) : Pump :=
  {| chan := chan s; locked := locked s; drain := drain s; fill := fill s;
     fill_err := e; fill_n := fill_n s; main := main s |}.

Definition set_n (k : Z) (s : Pump) : Pump :=
  {| chan := chan s; locked := locked s; drain := drain s; fill := fill s;
     fill_err := fill_err s; fill_n := k; main := main s |}.

Definition set_main (p : MainPc) (s : Pump) : Pump :=
  {| chan := chan s; locked := locked s; drain := drain s; fill := fill s;
     fill_err := fill_err s; fill_n := fill_n s; main := p |}.

(** Lines 248-253: [if er != nil { if er != io.EOF { err = er }; break }],
    otherwise back to the head of the loop. *)
Definition read_tail (er : option ioerr) (s : Pump) : Pump :=
  match er with
  | None => set_fill F_Lock s
  | Some EOF => set_fill F_Done s
  | Some e => set_fill F_Done (set_err (Some e) s)
  end.

(** Lines 229-254, one statement at a time. *)
Definition fill_step (s : Pump) : option (Pump * list Obs) :=
  match fill s with
  | F_Lock =>
      if locked s then None
      else Some (set_fill F_Check (set_locked true s), [])
  | F_Check =>
      if BufferedAmountLowThreshold (chan s) <? BufferedAmount (chan s)
      then Some (set_fill F_Wait (set_locked false s),
                 [Blocked (BufferedAmount (chan s))])
      else Some (set_fill F_Unlock s, [])
  | F_Woken =>
      if locked s then None
      else Some (set_fill F_Check (set_locked true s), [Resumed])
  | F_Unlock => Some (set_fill F_Read (set_locked false s), [])
  | _ => None
  end.

Definition stdin_read (nr : Z) (er : option ioerr) (s : Pump)
  : option (Pump * list Obs) :=
  match fill s with
  | F_Read =>
      if (0 <=? nr) && (nr <=? bufSize) then
        if 0 <? nr then Some (set_fill (F_Write nr er) s, [])
        else Some (read_tail er s, [])
      else None
  | _ => None
  end.

Definition channel_write (nw : Z) (ew : option ioerr) (s : Pump)
  : option (Pump * list Obs) :=
  match fill s with
  | F_Write nr er =>
      if (0 <=? nw) && (nw <=? nr) then
        let b := BufferedAmount (chan s) in
        let s1 := set_n (fill_n s + nw) (set_buffered (b + nw) s) in
        let s2 :=
          match ew with
          | Some e => set_fill F_Done (set_err (Some e) s1)
          | None =>
              if negb (nr =? nw)
              then set_fill F_Done (set_err (Some ErrShortWrite) s1)
              else read_tail er s1
          end in
        Some (s2, [Wrote b nr])
      else None
  | _ => None
  end.

(** [func (c *conn) flushed()]: Lock, Signal, Unlock. Signal wakes the
    goroutine waiting on the condition, if there is one. *)
Definition flushed (s : Pump) : option (Pump * list Obs) :=
  if locked s then None
  else
    match fill s with
    | F_Wait => Some (set_fill F_Woken s, [])
    | _ => Some (s, [])
    end.

Definition transmitted (k : Z) (s : Pump) : option (Pump * list Obs) :=
  if (0 <? k) && (k <=? BufferedAmount (chan s))
  then Some (set_buffered (BufferedAmount (chan s) - k) s, [])
  else None.

(** [done] is unbuffered: a send completes together with a receive. *)
Definition handoff (who : Direction) (s : Pump) : option (Pump * list Obs) :=
  match main s with
  | M_Done =>
      match who with
      | Drain =>
          match drain s with
          | D_Done => Some (set_drain D_Exit (set_main M_Poll s), [Reported Drain])
          | _ => None
          end
      | Fill =>
          match fill s with
          | F_Done => Some (set_fill F_Exit (set_main M_Poll s), [Reported Fill])
          | _ => None
          end
      end
  | _ => None
  end.

(** Lines 263-269. *)
Definition main_step (s : Pump) : option (Pump * list Obs) :=
  match main s with
  | M_Done => None
  | M_Poll =>
      let b := BufferedAmount (chan s) in
      if negb (b =? 0) then Some (set_main M_Sleep s, [Polled b])
      else Some (set_main M_CloseRwc s, [Polled b])
  | M_Sleep => Some (set_main M_Poll s, [])
  | M_CloseRwc => Some (set_main M_CloseD s, [ClosedRwc])
  | M_CloseD => Some (set_main M_ClosePc s, [ClosedChannel])
  | M_ClosePc => Some (set_main M_Return s, [ClosedConnection])
  | M_Return => None
  end.

Definition step (e : Event) (s : Pump) : option (Pump * list Obs) :=
  match main s with
  | M_Return => None
  | _ =>
      match e with
      | CopyReturns er =>
          match drain s with
          | D_Copy => Some (set_drain D_Done s, [])
          | _ => None
          end
      | FillStep => fill_step s
      | StdinRead nr er => stdin_read nr er s
      | ChannelWrite nw ew => channel_write nw ew s
      | Flushed => flushed s
      | Transmitted k => transmitted k s
      | Handoff who => handoff who s
      | MainStep => main_step s
      end
  end.

(** The pump as [main] starts it on the connection returned by [dial]. *)
Definition pump (c : conn) : Pump :=
  {| chan := d c; locked := false; drain := D_Copy; fill := F_Lock;
     fill_err := None; fill_n := 0; main := M_Done |}.

(** [run evs s h]: the events in order; [h] is the history of
    observations, the most recent first. *)
Fixpoint run (evs : list Event) (s : Pump) (h : list Obs)
  : option (Pump * list Obs) :=
  match evs with
  | [] => Some (s, h)
  | e :: evs' =>
      match step e s with
      | None => None
      | Some (s', o) => run evs' s' (o ++ h)
      end
  end.


Definition is_Reported (o : Obs) : bool :=
  match o with Reported _ => true | _ => false end.

(** Teardown observations: polls and closes. *)
Definition is_teardown (o : Obs) : bool :=
  match o with
  | Polled _ | ClosedRwc | ClosedChannel | ClosedConnection => true
  | _ => false
  end.

(** States and histories that the pump started on [c] can reach. *)
Inductive exec (c : conn) : Pump -> list Obs -> Prop :=
| exec_start : exec c (pump c) []
| exec_step e s h s' o :
    exec c s h -> step e s = Some (s', o) -> exec c s' (o ++ h).

(** [each P Q h]: at every observation of kind [P] in the history, [Q]
    held of what had been observed before it. *)
Definition each (P : Obs -> bool) (Q : list Obs -> Prop) (h : list Obs) : Prop :=
  forall recent o past, h = recent ++ o :: past -> P o = true -> Q past.

Definition is_Wrote (o : Obs) : bool :=
  match o with Wrote _ _ => true | _ => false end.



Definition reports (h : list Obs) : nat := List.length (filter is_Reported h).

(** ** Logs and invariants used by the statements below *)

(** The calls of lines 80-109 on the first endpoint, up to the first post. *)
Definition offer_log (url sdp o : string) : list Call :=
  let p := 0%nat in
  [NewPeerConnection; CreateDataChannel p; OnOpen p; OnError p;
   OnBufferedAmountLow p; SetBufferedAmountLowThreshold p lowWaterMark;
   CreateOffer p; SetLocalDescription p {| Type_ := SDPTypeOffer; SDP := sdp |};
   Post url o].

(** The connection [dial] builds on endpoint [p]. *)
Definition conn_on (p : PeerConnection) : conn :=
  {| d := {| dc_pc := p; BufferedAmountLowThreshold := lowWaterMark;
             BufferedAmount := 0 |};
     pc := p |}.

(** The calls of the collision branch on the fresh endpoint [p], up to the
    second post. *)
Definition answer_log (p : PeerConnection) (remote : SessionDescription)
    (url sdp a : string) : list Call :=
  [NewPeerConnection; CreateDataChannel p; OnOpen p; OnError p;
   OnBufferedAmountLow p; SetBufferedAmountLowThreshold p lowWaterMark;
   SetRemoteDescription p remote; CreateAnswer p;
   SetLocalDescription p {| Type_ := SDPTypeAnswer; SDP := sdp |};
   Post url a].

(** What [dial] returns once it reaches the final select. *)
Definition select_result (w : World) (c : conn) : error + conn :=
  match selected w with
  | None => inr c
  | Some msg => inl (ErrChannel msg)
  end.

(** A write that found at most [th] bytes queued and carried at most one
    buffer. *)
Definition write_ok (th : Z) (o : Obs) : Prop :=
  match o with
  | Wrote b nr => b <= th /\ 0 < nr <= bufSize
  | _ => True
  end.

(** Between the check that lets the sender through and its write, the
    queued amount is at most the threshold: only the transport changes it,
    and it only takes bytes away. *)
Definition Inv_bp (c : conn) (s : Pump) (h : list Obs) : Prop :=
  BufferedAmountLowThreshold (chan s) = BufferedAmountLowThreshold (d c) /\
  match fill s with
  | F_Unlock | F_Read =>
      BufferedAmount (chan s) <= BufferedAmountLowThreshold (d c)
  | F_Write nr _ =>
      BufferedAmount (chan s) <= BufferedAmountLowThreshold (d c) /\
      0 < nr <= bufSize
  | _ => True
  end /\
  Forall (write_ok (BufferedAmountLowThreshold (d c))) h.

(** [main] receives from [done] once: before that nothing of the teardown
    has happened, after it exactly one completion has been received. *)
Definition Inv_done (s : Pump) (h : list Obs) : Prop :=
  (main s = M_Done ->
   reports h = 0%nat /\ Forall (fun o => is_teardown o = false) h) /\
  (main s <> M_Done -> reports h = 1%nat) /\
  each is_teardown (fun past => reports past = 1%nat) h.


(** A run in which the send goroutine meets end of input at once, [main]
    receives its completion and tears down; [io.Copy] never returns. *)
Definition fill_only : list Event :=
  [FillStep; FillStep; FillStep; StdinRead 0 (Some EOF); Handoff Fill;
   MainStep; MainStep; MainStep; MainStep].

(** One turn of the send loop with a full buffer of input. *)
Definition full_chunk : list Event :=
  [FillStep; FillStep; FillStep; StdinRead (32 * 1024) None;
   ChannelWrite (32 * 1024) None].

(** A run with a blocked write: seventeen full chunks are queued with
    nothing sent, the sender then waits, the transport sends 64 KiB and
    signals, and the sender goes on to meet end of input. *)
Definition one_wait : list Event :=
  List.concat (List.repeat full_chunk 17%nat) ++
  [FillStep; FillStep; Transmitted (64 * 1024); Flushed;
   FillStep; FillStep; FillStep; StdinRead 0 (Some EOF)].

(** The peer's descriptions in the two scenarios of [dial]. *)
Definition peer_answer : SessionDescription :=
  {| Type_ := SDPTypeAnswer; SDP := "v=0 peer answer" |}.
Definition peer_offer : SessionDescription :=
  {| Type_ := SDPTypeOffer; SDP := "v=0 peer offer" |}.

(** A world in which every call succeeds and the peer answers. *)
Definition calm (remote : SessionDescription) : World :=
  {| newPeerConnection := fun _ => true;
     createDataChannel := fun _ => true;
     createOffer := fun _ => Some "v=0 offer";
     createAnswer := fun _ => Some "v=0 answer";
     setLocalDescription := fun _ _ => true;
     setRemoteDescription := fun _ _ => true;
     marshal := fun sd => Some (SDP sd);
     post := fun _ _ => Some {| StatusCode := 200; Status := "200 OK"; Body := "body" |};
     decode := fun _ => Some remote;
     selected := None |}.

(** ** Further definitions on [dial], the pump and [main] *)

Definition is_Post (c : Call) : bool :=
  match c with Post _ _ => true | _ => false end.

(** Number of requests posted to the signalling server. *)
Definition posts (log : list Call) : nat := List.length (filter is_Post log).

Definition is_SetRemoteDescription (c : Call) : bool :=
  match c with SetRemoteDescription _ _ => true | _ => false end.

(** [last log]: the most recent call, if any. *)
Definition last_call (log : list Call) : option Call :=
  match rev log with
  | [] => None
  | c :: _ => Some c
  end.

(** The queue of the channel stays between nothing and what was written,
    and below the threshold plus one buffer. *)
Definition Inv_queue (c : conn) (s : Pump) : Prop :=
  0 <= BufferedAmount (chan s) <= fill_n s /\
  BufferedAmount (chan s) <= BufferedAmountLowThreshold (d c) + bufSize.

(** [c.flushc.L] is held exactly while the sender is between its [Lock]
    and its [Unlock] or [Wait]. *)
Definition Inv_lock (s : Pump) : Prop :=
  locked s = true <-> (fill s = F_Check \/ fill s = F_Unlock).

(** The send loop has ended. *)
Definition fill_ended (s : Pump) : Prop := fill s = F_Done \/ fill s = F_Exit.

(** Of the two sends on [done] the one that [main] receives lets its
    goroutine go on; none has before [main] receives, and exactly one has
    afterwards. *)
Definition Inv_exit (s : Pump) : Prop :=
  (main s = M_Done -> drain s <> D_Exit /\ fill s <> F_Exit) /\
  (main s <> M_Done ->
   (drain s = D_Exit /\ fill s <> F_Exit) \/
   (drain s <> D_Exit /\ fill s = F_Exit)).

(** [strings.Split(s, ",")] *)
Fixpoint Split (s : string) : list string :=
  match s with
  | EmptyString => [""]
  | String c s' =>
      if Ascii.eqb c ","
      then "" :: Split s'
      else match Split s' with
           | [] => [String c ""]
           | x :: xs => String c x :: xs
           end
  end.

(** [strings.Join(l, ",")] *)
Fixpoint Join (l : list string) : string :=
  match l with
  | [] => ""
  | [x] => x
  | x :: l' => (x ++ "," ++ Join l')%string
  end.

Fixpoint commas (s : string) : nat :=
  match s with
  | EmptyString => 0%nat
  | String c s' => ((if Ascii.eqb c "," then 1 else 0) + commas s')%nat
  end.

(** [webrtc.ICEServer] and [webrtc.Configuration], the fields [main] sets. *)
Record ICEServer := { URLs : list string }.
Record Configuration := { ICEServers : list ICEServer }.

(** Lines 193-200 of [main]: the configuration built from the [-ice] flag. *)
Definition rtccfg (iceserv : string) : Configuration :=
  {| ICEServers :=
       if negb (iceserv =? "")%string
       then map (fun srv => {| URLs := [srv] |}) (Split iceserv)
       else [] |}.

(** [Inv_exit] as a test. *)
Definition exit_ok (s : Pump) : bool :=
  match main s, drain s, fill s with
  | M_Done, D_Exit, _ | M_Done, _, F_Exit => false
  | M_Done, _, _ => true
  | _, D_Exit, F_Exit => false
  | _, D_Exit, _ | _, _, F_Exit => true
  | _, _, _ => false
  end.

(** The sender at a pending write of ten bytes, and a run after that write
    came back short. *)
Definition at_write : Pump :=
  {| chan := d (conn_on 0%nat); locked := false; drain := D_Copy;
     fill := F_Write 10 None; fill_err := None; fill_n := 0; main := M_Done |}.
Definition after_write : list Event :=
  [Transmitted 4; CopyReturns None; Handoff Fill; MainStep].

End Rtcpipe.

(* ===================================================================== *)
(** * web/ww.ts *)
(* ===================================================================== *)

Module WW.

(** ** Data *)

Definition Uint8Array := list byte.

(** A JS number as this class meets it: an integer, or [NaN] out of
    [parseInt]. *)
Inductive number := NaN | Num (z : Z).

(** [enum WormholeErrorCodes] *)
Definition closeNoSuchSlot : Z := 4000.
Definition closeSlotTimedOut : Z := 4001.
Definition closeNoMoreSlots : Z := 4002.
Definition closeWrongProto : Z := 4003.
Definition closePeerHungUp : Z := 4004.
Definition closeBadKey : Z := 4005.
Definition closeWebRTCSuccess : Z := 4006.
Definition closeWebRTCSuccessDirect : Z := 4007.
Definition closeWebRTCSuccessRelay : Z := 4008.
Definition closeWebRTCFailed : Z := 4009.

(** [type GoICEServers] and the dictionary [RTCPeerConnection] expects. *)
Record GoICEServer :=
  { URLs : list string; Username : string; Credential : string }.
Record RTCIceServer :=
  { urls : list string; username : string; credential : string }.

(** The first message of the signalling server, parsed:
    [{slot: string, iceServers: GoICEServers}]. *)
Record Announce := { msg_slot : string; msg_iceServers : list GoICEServer }.

(** The plaintext of a sealed message, parsed: a session description
    ([type], [sdp]) or a candidate ([candidate]); a field that is absent is
    [None]. *)
Record JSObject := {
  msg_type : option string;
  msg_sdp : option string;
  msg_candidate : option string }.

(** The three outcomes of [JSON.parse] that the handlers tell apart: it
    throws, it yields a value that [!msg] takes for absent ([null]), or it
    yields an object. *)
Inductive Parsed := SyntaxError | Falsy | Object (o : JSObject).

Module URL.
Record t := { protocol : string; host : string; pathname : string }.
End URL.

Module WebSocket.
Record t := { url : string; protocol : string }.
End WebSocket.

(** The part of an [RTCPeerConnection] that the callbacks of
    [finishPromise] write. The creator's [setRemoteDescription] (line 322)
    is not one of them: the handler calls it without [await], drops the
    promise and goes on, so it is the effect [pc_setRemoteDescription] of
    that handler and its outcome is not in this record. *)
Record RTCPeerConnection := {
  iceServers : list RTCIceServer;
  localDescription : option JSObject;
  remoteDescription : option JSObject;
  remoteCandidates : list JSObject }.

(** [state: string], with the values the class assigns or switches on;
    ["a"] and ["b"] are [state_a] and [state_b]. *)
Inductive State :=
| state_a
| state_b
| wait_for_pake_a
| wait_for_pake_b
| wait_for_webtc_offer
| wait_for_webtc_answer
| wait_for_candidates
| wait_for_pc_initialize
| wait_for_local_offer
| wait_for_local_answer
| error.

(** The three closures handed to [finishPromise.then], with what they
    capture. *)
Inductive Deferred :=
| SendOffer                        (* lines 250-258 *)
| SendAnswer (msg : JSObject)      (* lines 293-302 *)
| AddIceCandidate (msg : JSObject). (* lines 339-342 *)

Record Wormhole := {
  pass : Uint8Array;
  state : State;
  slot : option number;
  pc : option RTCPeerConnection;
  ws : option WebSocket.t;
  key : option Uint8Array;
  (** [finishPromise]: whether it is resolved, and the callbacks registered
      with [then] that have not run yet, oldest first *)
  finishResolved : bool;
  finishThen : list Deferred }.

(** Which [ws.send] of the class emitted a message. *)
Inductive Site :=
| PakeA             (* line 231 *)
| PakeB             (* line 248 *)
| SealedOffer       (* line 255 *)
| SealedAnswer      (* line 299 *)
| SealedCandidate   (* line 375 *)
| SealedBye.        (* lines 280, 312, 334 *)

(** What a handler does to the outside. *)
Inductive Effect :=
| ws_send (site : Site) (data : string)
| ws_close (code : Z)
| signalResolve (code : option string)
| signalReject (reason : string)
| doneResolve (fingerprint : Uint8Array)
| doneReject (reason : string)
| pc_setRemoteDescription (sd : JSObject)
                                   (* line 322: called, not awaited *)
| throw.                           (* an exception leaves the handler *)

(** ** Interfaces *)

(** [declare var webwormhole]: the WASM symbols. A result the class tests
    for absence ([msgA == null], [!this.key], [!msg] after [open]) is an
    [option]. *)
Module webwormhole.
Class API := {
  decode : string -> number * Uint8Array;
  encode : number -> Uint8Array -> string;
  start : Uint8Array -> option string;
  exchange : Uint8Array -> string -> option Uint8Array * string;
  finish : string -> option Uint8Array;
  open : Uint8Array -> string -> option string;
  seal : Uint8Array -> string -> string;
  fingerprint : Uint8Array -> Uint8Array }.
End webwormhole.

(** What the class uses of the browser. *)
Class Browser := {
  JSON_parse_announce : string -> option Announce;   (* [None]: it throws *)
  JSON_parse : string -> Parsed;
  JSON_stringify : JSObject -> string;
  parseInt : string -> number;
  new_URL : string -> option URL.t;                  (* [None]: it throws *)
  createOffer_sdp : RTCPeerConnection -> string;
  createAnswer_sdp : RTCPeerConnection -> string }.

Section Wormhole.

Context {wasm : webwormhole.API} {browser : Browser}.

(** [static readonly protocol = "4"] *)
Definition protocol : string := "4".

(** [if (slot)]: absent, [0] and [NaN] are falsy. *)
Definition truthy (slot : option number) : bool :=
  match slot with
  | Some (Num z) => negb (z =? 0)
  | _ => false
  end.

(** [`${slot}`] for an integer below 1e21. *)
Definition number_toString (n : number) : string :=
  match n with
  | NaN => "NaN"
  | Num z => NilZero.string_of_int (Z.to_int z)
  end.

Definition slot_toString (slot : option number) : string :=
  match slot with
  | Some n => number_toString n
  | None => "undefined"
  end.

(** [static wsserver(url: string, slot?: number)]; [None] when [new URL]
    throws. *)
Definition wsserver (url : string) (slot : option number) : option string :=
  match new_URL url with
  | None => None
  | Some u =>
      let protocol :=
        if (URL.protocol u =? "http:")%string then "ws:" else "wss:" in
      let path := URL.pathname u in
      let path := if String.prefix "/" path then path else ("/" ++ path)%string in
      let path := if truthy slot then (path ++ slot_toString slot)%string else path in
      Some (protocol ++ "//" ++ URL.host u ++ path)%string
  end.

(** [Number.isSafeInteger] *)
Definition isSafeInteger (n : number) : bool :=
  match n with
  | NaN => false
  | Num z => (Z.abs z <=? 2 ^ 53 - 1)
  end.

Definition set_state (st : State) (w : Wormhole) : Wormhole :=
  {| pass := pass w; state := st; slot := slot w; pc := pc w; ws := ws w;
     key := key w; finishResolved := finishResolved w;
     finishThen := finishThen w |}.

Definition set_slot (n : number) (w : Wormhole) : Wormhole :=
  {| pass := pass w; state := state w; slot := Some n; pc := pc w; ws := ws w;
     key := key w; finishResolved := finishResolved w;
     finishThen := finishThen w |}.

Definition set_pc (p : RTCPeerConnection) (w : Wormhole) : Wormhole :=
  {| pass := pass w; state := state w; slot := slot w; pc := Some p; ws := ws w;
     key := key w; finishResolved := finishResolved w;
     finishThen := finishThen w |}.

Definition set_ws (s : option WebSocket.t) (w : Wormhole) : Wormhole :=
  {| pass := pass w; state := state w; slot := slot w; pc := pc w; ws := s;
     key := key w; finishResolved := finishResolved w;
     finishThen := finishThen w |}.

Definition set_key (k : option Uint8Array) (w : Wormhole) : Wormhole :=
  {| pass := pass w; state := state w; slot := slot w; pc := pc w; ws := ws w;
     key := k; finishResolved := finishResolved w;
     finishThen := finishThen w |}.

Definition set_finishResolved (b : bool) (w : Wormhole) : Wormhole :=
  {| pass := pass w; state := state w; slot := slot w; pc := pc w; ws := ws w;
     key := key w; finishResolved := b; finishThen := finishThen w |}.

Definition set_finishThen (q : list Deferred) (w : Wormhole) : Wormhole :=
  {| pass := pass w; state := state w; slot := slot w; pc := pc w; ws := ws w;
     key := key w; finishResolved := finishResolved w; finishThen := q |}.

(** [this.finishPromise.then(cb)] *)
Definition finishPromise_then (cb : Deferred) (w : Wormhole) : Wormhole :=
  set_finishThen (finishThen w ++ [cb]) w.

(** [dial(signalserver)]: [this.ws] stays unset when [wsserver] throws. *)
Definition dial (signalserver : string) (w : Wormhole) : Wormhole :=
  set_ws (option_map (fun u => {| WebSocket.url := u; WebSocket.protocol := protocol |})
                     (wsserver signalserver (slot w))) w.

(** [constructor(signalserver, code)]; [random] is what
    [crypto.getRandomValues(new Uint8Array(2))] yields; [None] is
    [throw "bad code"]. *)
Definition constructor (signalserver code : string) (random : byte * byte)
  : option Wormhole :=
  if negb (code =? "")%string then
    let (n, p) := webwormhole.decode code in
    if (List.length p =? 0)%nat then None
    else Some (dial signalserver
                 {| pass := p; state := state_b; slot := Some n; pc := None;
                    ws := None; key := None; finishResolved := false;
                    finishThen := [] |})
  else
    Some (dial signalserver
            {| pass := [fst random; snd random]; state := state_a; slot := None;
               pc := None; ws := None; key := None; finishResolved := false;
               finishThen := [] |}).

(** [fail(reason)]; [signalReject] and [doneReject] are set by the
    constructor before anything else runs. *)
Definition fail (reason : string) (w : Wormhole) : Wormhole * list Effect :=
  (set_state error w, [signalReject reason; doneReject reason]).

(** [makePeerConnection(iceServers)] *)
Definition makePeerConnection (l : list GoICEServer) (w : Wormhole) : Wormhole :=
  set_pc {| iceServers :=
              map (fun i => {| urls := URLs i; username := Username i;
                               credential := Credential i |}) l;
            localDescription := None; remoteDescription := None;
            remoteCandidates := [] |} w.

(** [JSON.parse(webwormhole.open(this.key, m.data))]: [open] yields [null]
    when the message does not open, and [JSON.parse(null)] is [null]. *)
Definition parse_opened (k : Uint8Array) (data : string) : Parsed :=
  match webwormhole.open k data with
  | None => Falsy
  | Some s => JSON_parse s
  end.

(** The bad-key branch, the same three statements in three cases. *)
Definition bad_key (k : Uint8Array) (w : Wormhole) : Wormhole * list Effect :=
  let (w', eff) := fail "bad key" w in
  (w', eff ++ [ws_send SealedBye (webwormhole.seal k "bye"); ws_close closeBadKey]).

Definition type_is (t : string) (msg : JSObject) : bool :=
  match msg_type msg with
  | Some t' => (t' =? t)%string
  | None => false
  end.

(** [onmessage(m)] *)
Definition onmessage (data : string) (w : Wormhole) : Wormhole * list Effect :=
  match ws w with
  | None => (w, [])
  | Some _ =>
  match state w with
  | state_a =>
      match JSON_parse_announce data with
      | None => (w, [throw])
      | Some msg =>
          let n := parseInt (msg_slot msg) in
          let w := set_slot n w in
          if negb (isSafeInteger n) then fail "invalid slot" w
          else
            let w := makePeerConnection (msg_iceServers msg) w in
            (set_state wait_for_pake_a w,
             [signalResolve (Some (webwormhole.encode n (pass w)))])
      end
  | state_b =>
      match JSON_parse_announce data with
      | None => (w, [throw])
      | Some msg =>
          let w := makePeerConnection (msg_iceServers msg) w in
          match webwormhole.start (pass w) with
          | None =>
              let (w', eff) := fail "couldn't generate A's PAKE message" w in
              (w', signalResolve None :: eff)
          | Some msgA =>
              (set_state wait_for_pake_b w,
               [signalResolve None; ws_send PakeA msgA])
          end
      end
  | wait_for_pake_a =>
      match pc w with
      | None => (w, [])
      | Some _ =>
          let (k, msgB) := webwormhole.exchange (pass w) data in
          let w := set_key k w in
          match k with
          | None => fail "could not generate key" w
          | Some _ =>
              (finishPromise_then SendOffer (set_state wait_for_pc_initialize w),
               [ws_send PakeB msgB])
          end
      end
  | wait_for_pake_b =>
      let k := webwormhole.finish data in
      let w := set_key k w in
      match k with
      | None => fail "could not generate key" w
      | Some _ => (set_state wait_for_webtc_offer w, [])
      end
  | wait_for_webtc_offer =>
      match key w, pc w with
      | Some k, Some _ =>
          match parse_opened k data with
          | SyntaxError => (w, [throw])
          | Falsy => bad_key k w
          | Object msg =>
              if negb (type_is "offer" msg) then fail "unexpected message" w
              else
                (finishPromise_then (SendAnswer msg)
                   (set_state wait_for_candidates w), [])
          end
      | _, _ => (w, [])
      end
  | wait_for_webtc_answer =>
      match key w, pc w with
      | Some k, Some _ =>
          match parse_opened k data with
          | SyntaxError => (w, [throw])
          | Falsy => bad_key k w
          | Object msg =>
              if negb (type_is "answer" msg) then fail "unexpected message" w
              else
                (set_state wait_for_candidates w,
                 [pc_setRemoteDescription msg;
                  doneResolve (webwormhole.fingerprint k)])
          end
      | _, _ => (w, [])
      end
  | wait_for_candidates =>
      match key w, pc w with
      | Some k, Some _ =>
          match parse_opened k data with
          | SyntaxError => (w, [throw])
          | Falsy => bad_key k w
          | Object msg => (finishPromise_then (AddIceCandidate msg) w, [])
          end
      | _, _ => (w, [])
      end
  | wait_for_pc_initialize
  | wait_for_local_offer
  | wait_for_local_answer => fail "unexpected message" w
  | error => (w, [])
  end
  end.

(** [this.pc.createOffer()] and [this.pc.createAnswer()]: the description
    made by the transport carries the type of the call that made it. *)
Definition createOffer (p : RTCPeerConnection) : JSObject :=
  {| msg_type := Some "offer"; msg_sdp := Some (createOffer_sdp p);
     msg_candidate := None |}.

Definition createAnswer (p : RTCPeerConnection) : JSObject :=
  {| msg_type := Some "answer"; msg_sdp := Some (createAnswer_sdp p);
     msg_candidate := None |}.

Definition setLocalDescription (sd : JSObject) (p : RTCPeerConnection)
  : RTCPeerConnection :=
  {| iceServers := iceServers p; localDescription := Some sd;
     remoteDescription := remoteDescription p;
     remoteCandidates := remoteCandidates p |}.

Definition setRemoteDescription (sd : JSObject) (p : RTCPeerConnection)
  : RTCPeerConnection :=
  {| iceServers := iceServers p; localDescription := localDescription p;
     remoteDescription := Some sd;
     remoteCandidates := remoteCandidates p |}.

Definition addIceCandidate (c : JSObject) (p : RTCPeerConnection)
  : RTCPeerConnection :=
  {| iceServers := iceServers p; localDescription := localDescription p;
     remoteDescription := remoteDescription p;
     remoteCandidates := remoteCandidates p ++ [c] |}.

(** The body of a callback registered with [finishPromise.then]; the
    continuation after each [await] runs in the same step. *)
Definition run_deferred (cb : Deferred) (w : Wormhole) : Wormhole * list Effect :=
  match cb with
  | SendOffer =>
      match ws w, key w, pc w with
      | Some _, Some k, Some p =>
          let offer := createOffer p in
          (set_pc (setLocalDescription offer p) (set_state wait_for_webtc_answer w),
           [ws_send SealedOffer (webwormhole.seal k (JSON_stringify offer))])
      | _, _, _ => (w, [])
      end
  | SendAnswer msg =>
      match ws w, key w, pc w with
      | Some _, Some k, Some p =>
          let p := setRemoteDescription msg p in
          let answer := createAnswer p in
          (set_pc (setLocalDescription answer p) w,
           [ws_send SealedAnswer (webwormhole.seal k (JSON_stringify answer));
            doneResolve (webwormhole.fingerprint k)])
      | _, _, _ => (w, [])
      end
  | AddIceCandidate msg =>
      match key w, pc w with
      | Some _, Some p => (set_pc (addIceCandidate msg p) w, [])
      | _, _ => (w, [])
      end
  end.

(** [this.pc.onicecandidate] *)
Definition onicecandidate (candidate : option JSObject) (w : Wormhole)
  : Wormhole * list Effect :=
  match ws w, key w, pc w with
  | Some _, Some k, Some _ =>
      match candidate with
      | Some c =>
          if negb (match msg_candidate c with
                   | Some s => (s =? "")%string
                   | None => false
                   end)
          then (w, [ws_send SealedCandidate (webwormhole.seal k (JSON_stringify c))])
          else (w, [])
      | None => (w, [])
      end
  | _, _, _ => (w, [])
  end.

(** [onerror(e)] *)
Definition onerror (w : Wormhole) : Wormhole * list Effect :=
  fail "could not connect to signalling server" w.

(** [onclose(e)] with [e.code] and [e.reason] *)
Definition onclose (code : Z) (reason : string) (w : Wormhole)
  : Wormhole * list Effect :=
  if code =? 4000 then fail "no such slot" w
  else if code =? 4001 then fail "timed out" w
  else if code =? 4002 then fail "could not get slot" w
  else if code =? 4003 then fail "wrong protocol version, must update" w
  else if (code =? 4004) || (code =? 1001) then (w, [])
  else fail ("websocket session closed: " ++ reason
             ++ " (" ++ number_toString (Num code) ++ ")")%string w.

(** ** Events *)

Inductive Event :=
| ev_message (data : string)               (* ws.onmessage *)
| ev_error                                 (* ws.onerror *)
| ev_close (code : Z) (reason : string)    (* ws.onclose *)
| ev_icecandidate (c : option JSObject)    (* pc.onicecandidate *)
| ev_finish                                (* the caller invokes finish() *)
| ev_then.                                 (* the oldest pending callback of
                                              finishPromise runs *)

Definition handle (e : Event) (w : Wormhole) : Wormhole * list Effect :=
  match e with
  | ev_message data => onmessage data w
  | ev_error => onerror w
  | ev_close code reason => onclose code reason w
  | ev_icecandidate c => onicecandidate c w
  | ev_finish => (set_finishResolved true w, [])
  | ev_then =>
      if finishResolved w then
        match finishThen w with
        | [] => (w, [])
        | cb :: q => run_deferred cb (set_finishThen q w)
        end
      else (w, [])
  end.

(** Events in order; the effects in the order they happen. *)
Fixpoint run (evs : list Event) (w : Wormhole) : Wormhole * list Effect :=
  match evs with
  | [] => (w, [])
  | e :: evs' =>
      let (w1, eff1) := handle e w in
      let (w2, eff2) := run evs' w1 in
      (w2, eff1 ++ eff2)
  end.

(** Sessions that the constructor and the handlers can produce. *)
Inductive reachable : Wormhole -> Prop :=
| reachable_new signalserver code random w :
    constructor signalserver code random = Some w -> reachable w
| reachable_handle e w :
    reachable w -> reachable (fst (handle e w)).

Definition sites (eff : list Effect) : list Site :=
  flat_map (fun e => match e with ws_send s _ => [s] | _ => [] end) eff.

(** What each role may send. *)
Definition creator_site (s : Site) : bool :=
  match s with
  | PakeB | SealedOffer | SealedCandidate | SealedBye => true
  | _ => false
  end.

Definition joiner_site (s : Site) : bool :=
  match s with
  | PakeA | SealedAnswer | SealedCandidate | SealedBye => true
  | _ => false
  end.

(** States in which [onmessage] opens the message under the key. *)
Definition opens_messages (st : State) : bool :=
  match st with
  | wait_for_webtc_offer | wait_for_webtc_answer | wait_for_candidates => true
  | _ => false
  end.

(** A message that does not fit the state and on which [JSON.parse] does
    not throw: where an offer or an answer is awaited, a message that yields
    no value under the key or a value of another type; any message in a
    state whose case is the unexpected-message one. *)
Definition inconsistent (w : Wormhole) (data : string) : Prop :=
  match state w with
  | wait_for_webtc_offer =>
      exists k, key w = Some k /\
                match parse_opened k data with
                | SyntaxError => False
                | Falsy => True
                | Object msg => type_is "offer" msg = false
                end
  | wait_for_webtc_answer =>
      exists k, key w = Some k /\
                match parse_opened k data with
                | SyntaxError => False
                | Falsy => True
                | Object msg => type_is "answer" msg = false
                end
  | wait_for_pc_initialize | wait_for_local_offer | wait_for_local_answer => True
  | _ => False
  end.

(** Where an offer or an answer is awaited, a message that opens under the
    key to a text [JSON.parse] throws on; the peer's "bye" is one. *)
Definition not_json (w : Wormhole) (data : string) : Prop :=
  (state w = wait_for_webtc_offer \/ state w = wait_for_webtc_answer) /\
  exists k, key w = Some k /\ parse_opened k data = SyntaxError.

(** What holds of every session the handlers produce: past the first
    message there is a socket and a peer connection, past the key exchange
    there is a key, and the two states that are never assigned are never
    entered. *)
Definition Inv (w : Wormhole) : Prop :=
  match state w with
  | state_a | state_b | error => True
  | wait_for_pake_a | wait_for_pake_b => ws w <> None /\ pc w <> None
  | wait_for_local_offer | wait_for_local_answer => False
  | _ => ws w <> None /\ pc w <> None /\ key w <> None
  end.

Definition is_SendOffer (cb : Deferred) : bool :=
  match cb with SendOffer => true | _ => false end.

Definition is_SendAnswer (cb : Deferred) : bool :=
  match cb with SendAnswer _ => true | _ => false end.

(** The states each role passes through, and the callbacks it registers. *)
Definition creator_inv (w : Wormhole) : Prop :=
  match state w with
  | state_a | wait_for_pake_a | wait_for_pc_initialize
  | wait_for_webtc_answer | wait_for_candidates | error => True
  | _ => False
  end /\
  forallb (fun cb => negb (is_SendAnswer cb)) (finishThen w) = true.

Definition joiner_inv (w : Wormhole) : Prop :=
  match state w with
  | state_b | wait_for_pake_b | wait_for_webtc_offer
  | wait_for_candidates | error => True
  | _ => False
  end /\
  forallb (fun cb => negb (is_SendOffer cb)) (finishThen w) = true.

(** The handshake of the side constructed with a code: announcement, the
    peer's PAKE message, the sealed offer; then the caller finishes
    configuring and the pending callback runs. *)
Definition joiner_script (announce pake sealed : string) : list Event :=
  [ev_message announce; ev_message pake; ev_message sealed; ev_finish; ev_then].

(** The handshake of the side constructed without a code, up to its
    sealed description. *)
Definition creator_script (announce pake : string) : list Event :=
  [ev_message announce; ev_message pake; ev_finish; ev_then].

End Wormhole.

(** ** A small instance, to run the class on *)

Definition toy_key : Uint8Array := [x2a].

Definition toy_wasm : webwormhole.API :=
  {| webwormhole.decode := fun code =>
       if (code =? "7-cat")%string then (Num 7, [x01; x02]) else (Num 0, []);
     webwormhole.encode := fun _ _ => "7-cat";
     webwormhole.start := fun _ => Some "pake-a";
     webwormhole.exchange := fun _ _ => (Some toy_key, "pake-b");
     webwormhole.finish := fun _ => Some toy_key;
     webwormhole.open := fun _ data =>
       if String.prefix "sealed:" data
       then Some (String.substring 7 (String.length data - 7) data)
       else None;
     webwormhole.seal := fun _ msg => ("sealed:" ++ msg)%string;
     webwormhole.fingerprint := fun k => k |}.

Definition toy_offer : JSObject :=
  {| msg_type := Some "offer"; msg_sdp := Some "v=0 o"; msg_candidate := None |}.

Definition toy_answer : JSObject :=
  {| msg_type := Some "answer"; msg_sdp := Some "v=0 a"; msg_candidate := None |}.

(** The text of a description is its type, for brevity. *)
Definition toy_browser : Browser :=
  {| JSON_parse_announce := fun _ => Some {| msg_slot := "7"; msg_iceServers := [] |};
     JSON_parse := fun s =>
       if (s =? "offer")%string then Object toy_offer
       else if (s =? "answer")%string then Object toy_answer
       else if (s =? "null")%string then Falsy
       else SyntaxError;
     JSON_stringify := fun o =>
       match msg_type o with Some t => t | None => "candidate" end;
     parseInt := fun _ => Num 7;
     new_URL := fun _ =>
       Some {| URL.protocol := "https:"; URL.host := "sig.example";
               URL.pathname := "/" |};
     createOffer_sdp := fun _ => "v=0 o";
     createAnswer_sdp := fun _ => "v=0 a" |}.

Definition toy_new (code : string) : option Wormhole :=
  @constructor toy_wasm toy_browser "https://sig.example/" code (x00, x00).

Definition toy_run (evs : list Event) (w : Wormhole) : Wormhole * list Effect :=
  @run toy_wasm toy_browser evs w.

(** The session constructed with [code] after the events [evs]. *)
Definition toy_session (code : string) (evs : list Event) : option Wormhole :=
  option_map (fun w => fst (toy_run evs w)) (toy_new code).

Definition toy_onmessage : string -> Wormhole -> Wormhole * list Effect :=
  @onmessage toy_wasm toy_browser.

(** ** The session closer, and further predicates on sessions *)

(** An entry of the [RTCStatsReport], with the fields [connType] reads; a
    field that is absent is [None]. *)
Record RTCStats := {
  stat_id : string;
  stat_type : string;
  stat_state : option string;
  localCandidateId : option string;
  candidateType : option string }.

Definition is_succeeded_pair (s : RTCStats) : bool :=
  (stat_type s =? "candidate-pair")%string &&
  match stat_state s with
  | Some st => (st =? "succeeded")%string
  | None => false
  end.

(** The first [stats.forEach] of [connType]: the local candidate of the
    last succeeded pair. *)
Definition selected_id (stats : list RTCStats) : option string :=
  fold_left (fun id s => if is_succeeded_pair s then localCandidateId s else id)
            stats None.

(** The second [stats.forEach]: the type of the last entry with that id. *)
Definition type_of_id (id : string) (stats : list RTCStats) : option string :=
  fold_left (fun t s => if (stat_id s =? id)%string then candidateType s else t)
            stats (Some "").

(** [connType()], given what [this.pc.getStats()] resolves to; [None] is
    [undefined]. *)
Definition connType (stats : list RTCStats) (w : Wormhole) : option string :=
  match pc w with
  | None => Some ""
  | Some _ =>
      match selected_id stats with
      | None => Some ""
      | Some id => if (id =? "")%string then Some "" else type_of_id id stats
      end
  end.

Definition is_direct (t : option string) : bool :=
  match t with
  | Some t => (t =? "host")%string || (t =? "srflx")%string || (t =? "prflx")%string
  | None => false
  end.

Definition is_relay (t : option string) : bool :=
  match t with
  | Some t => (t =? "relay")%string
  | None => false
  end.

(** [close()], given [this.pc.iceConnectionState] and the stats. *)
Definition close (iceConnectionState : string) (stats : list RTCStats)
    (w : Wormhole) : list Effect :=
  match ws w, pc w with
  | Some _, Some _ =>
      if (iceConnectionState =? "connected")%string then
        let t := connType stats w in
        if is_direct t then [ws_close closeWebRTCSuccessDirect]
        else if is_relay t then [ws_close closeWebRTCSuccessRelay]
        else [ws_close closeWebRTCSuccess]
      else if (iceConnectionState =? "failed")%string
      then [ws_close closeWebRTCFailed]
      else []
  | _, _ => []
  end.

(** States past the key exchange: the key is not assigned in them. *)
Definition keyed (st : State) : bool :=
  match st with
  | state_a | state_b | wait_for_pake_a | wait_for_pake_b => false
  | _ => true
  end.

(** A peer connection on which signalling has set nothing yet. *)
Definition unconfigured (w : Wormhole) : Prop :=
  match pc w with
  | None => True
  | Some p =>
      localDescription p = None /\ remoteDescription p = None /\
      remoteCandidates p = []
  end.

(** Effects that hand a description to the peer or to the peer connection,
    or the fingerprint to the caller. *)
Definition negotiates (e : Effect) : bool :=
  match e with
  | ws_send SealedOffer _ | ws_send SealedAnswer _ | doneResolve _
  | pc_setRemoteDescription _ => true
  | _ => false
  end.

Definition is_finish (e : Event) : bool :=
  match e with ev_finish => true | _ => false end.

Definition is_AddIceCandidate (cb : Deferred) : bool :=
  match cb with AddIceCandidate _ => true | _ => false end.

End WW.

(* ===================================================================== *)
(** * Properties of cmd/rtcpipe/main.go *)
(* ===================================================================== *)

Module RtcpipeProofs.
Import Rtcpipe.

(** ** [dial] *)

(** Destruct the answers of the world that a computation branches on. *)
Ltac world_cases H :=
  repeat match type of H with
         | context [match ?x with _ => _ end] =>
             lazymatch x with
             | context [match _ with _ => _ end] => fail
             | _ => let E := fresh "E" in
                    destruct x eqn:E; cbn in H; try discriminate H
             end
         end.

(** When the offer is posted and the response decodes, the calls made so
    far are the nine of the first endpoint. *)
Lemma dial_post_offer_ok w slot sigserv c remote log1 :
  dial_post_offer w slot sigserv [] = (inr (c, remote), log1) ->
  c = conn_on 0%nat /\
  exists sdp o, log1 = offer_log (sigserv ++ slot) sdp o.
Proof.
  unfold dial_post_offer, bind, NewPC, try_ok, try_call, call, lift, ret, raise.
  intros H. cbn in H. world_cases H.
  inversion H; subst. split; [reflexivity|].
  eexists _, _. reflexivity.
Qed.

Lemma dial_unfold w slot sigserv c remote log1 :
  dial_post_offer w slot sigserv [] = (inr (c, remote), log1) ->
  dial w slot sigserv [] =
  bind (dial_switch w slot sigserv c remote) (dial_select w) log1.
Proof.
  intros H. unfold dial. unfold bind at 1. rewrite H. reflexivity.
Qed.

(** C4. Once the response to the posted offer is decoded as [remote]:
    - type "offer": the log continues with exactly one more
      [NewPeerConnection]; every remote description set afterwards is
      [remote], set on that fresh endpoint (handle 1, the first was 0); and
      when the calls on the fresh endpoint succeed, [dial] sets [remote],
      creates the answer, sets it locally and posts it to the same address,
      then waits for the channel on the fresh endpoint;
    - type "answer": no endpoint is allocated, [remote] is set on the first
      endpoint and nothing else is called before the wait;
    - any other type: [dial] returns the unknown-sdp-type error without a
      further call. *)
Theorem dial_dispatch w slot sigserv c remote log1
  (Hresp : dial_post_offer w slot sigserv [] = (inr (c, remote), log1)) :
  let url := (sigserv ++ slot)%string in
  let old := 0%nat in
  let fresh := 1%nat in
  (pc c = old /\ allocations log1 = 1%nat) /\
  (Type_ remote = SDPTypeOffer ->
     (exists rest,
         snd (dial w slot sigserv []) = log1 ++ NewPeerConnection :: rest /\
         allocations rest = 0%nat /\
         forall p sd, In (SetRemoteDescription p sd) rest ->
                      p = fresh /\ sd = remote) /\
     (forall sdp a res,
         newPeerConnection w fresh = true ->
         createDataChannel w fresh = true ->
         setRemoteDescription w fresh remote = true ->
         createAnswer w fresh = Some sdp ->
         setLocalDescription w fresh {| Type_ := SDPTypeAnswer; SDP := sdp |} = true ->
         marshal w {| Type_ := SDPTypeAnswer; SDP := sdp |} = Some a ->
         post w url a = Some res ->
         StatusCode res = StatusOK ->
         dial w slot sigserv [] =
         (select_result w (conn_on fresh),
          log1 ++ answer_log fresh remote url sdp a ++ [Select]))) /\
  (Type_ remote = SDPTypeAnswer ->
     allocations (snd (dial w slot sigserv [])) = 1%nat /\
     dial w slot sigserv [] =
     if setRemoteDescription w old remote
     then (select_result w c, log1 ++ [SetRemoteDescription old remote; Select])
     else (inl (ErrCall (SetRemoteDescription old remote)),
           log1 ++ [SetRemoteDescription old remote])) /\
  (Type_ remote <> SDPTypeOffer -> Type_ remote <> SDPTypeAnswer ->
     dial w slot sigserv [] = (inl (ErrUnknownSdpType (Type_ remote)), log1)).
Proof.
  intros url old fresh. subst url old fresh.
  pose proof (dial_unfold _ _ _ _ _ _ Hresp) as Hd.
  destruct (dial_post_offer_ok _ _ _ _ _ _ Hresp) as [-> [sdp0 [o ->]]].
  rewrite Hd. clear Hd Hresp.
  split; [split; reflexivity|].
  unfold dial_switch, dial_select, select_result.
  split; [|split].
  - intros ->. split.
    + unfold bind, NewPC, try_ok, try_call, call, lift, ret, raise. cbn.
      repeat match goal with
             | |- context [match ?x with _ => _ end] =>
                 lazymatch x with
                 | context [match _ with _ => _ end] => fail
                 | _ => destruct x; cbn
                 end
             end;
        (eexists; split; [reflexivity|]; split; [reflexivity|];
         cbn; intros p sd Hin;
         repeat (destruct Hin as [Hin|Hin];
                 [try discriminate Hin; inversion Hin; split; reflexivity|]);
         contradiction).
    + intros sdp a res H1 H2 H3 H4 H5 H6 H7 H8.
      unfold bind, NewPC, try_ok, try_call, call, lift, ret, raise. cbn.
      rewrite H1, H2, H3, H4. cbn. rewrite H5, H6. cbn.
      rewrite H7. cbn. rewrite H8. cbn.
      destruct (selected w); reflexivity.
  - intros ->. unfold bind, try_ok, try_call, call, ret, raise. cbn.
    destruct (setRemoteDescription w 0%nat remote); cbn.
    + destruct (selected w); split; reflexivity.
    + split; reflexivity.
  - intros H1 H2. unfold bind, raise.
    destruct (Type_ remote); try reflexivity; contradiction.
Qed.

(** ** The data pump *)

Lemma run_exec c evs : forall s h s' h',
  exec c s h -> run evs s h = Some (s', h') -> exec c s' h'.
Proof.
  induction evs as [|e evs IH]; simpl; intros s h s' h' Hx Hr.
  - inversion Hr; subst. exact Hx.
  - destruct (step e s) as [[s1 o]|] eqn:Hs; [|discriminate].
    eapply IH; [|exact Hr]. econstructor; eassumption.
Qed.

Lemma each_nil P Q : each P Q [].
Proof. intros [|? ?] x past E; discriminate E. Qed.

Lemma each_cons P Q x h :
  (P x = true -> Q h) -> each P Q h -> each P Q (x :: h).
Proof.
  intros Hx Hh recent z past E Ho.
  destruct recent as [|y recent]; simpl in E; inversion E; subst.
  - apply Hx, Ho.
  - eapply Hh; [reflexivity|exact Ho].
Qed.

(** Case analysis of one step: which flow moved, from which program point. *)
Ltac innermost_cases H :=
  repeat match type of H with
         | context [match ?x with _ => _ end] =>
             lazymatch x with
             | context [match _ with _ => _ end] => fail
             | _ => let E := fresh "E" in
                    destruct x eqn:E; try discriminate H
             end
         end.

Ltac step_cases H :=
  unfold step in H;
  match type of H with
  | context [match ?e with CopyReturns _ => _ | _ => _ end] => destruct e
  end;
  unfold fill_step, stdin_read, channel_write, flushed, transmitted, handoff,
    main_step, read_tail in H;
  match type of H with
  | context [main ?s] =>
      let M := fresh "Hmain" in destruct (main s) eqn:M; try discriminate H
  end;
  innermost_cases H;
  inversion H; subst; clear H.

(** Rewrite boolean tests into arithmetic facts. *)
Ltac tests :=
  repeat match goal with
         | H : (_ && _)%bool = true |- _ => apply andb_true_iff in H; destruct H
         | H : (_ <? _) = true |- _ => apply Z.ltb_lt in H
         | H : (_ <? _) = false |- _ => apply Z.ltb_ge in H
         | H : (_ <=? _) = true |- _ => apply Z.leb_le in H
         | H : (_ <=? _) = false |- _ => apply Z.leb_gt in H
         | H : (_ =? _) = true |- _ => apply Z.eqb_eq in H
         | H : (_ =? _) = false |- _ => apply Z.eqb_neq in H
         | H : negb _ = true |- _ => apply negb_true_iff in H
         | H : negb _ = false |- _ => apply negb_false_iff in H
         end.

(** *** Backpressure *)

Lemma bp_step c e s h s' o :
  Inv_bp c s h -> step e s = Some (s', o) -> Inv_bp c s' (o ++ h).
Proof.
  intros (Hth & Hf & Hh) H. unfold Inv_bp.
  step_cases H; tests;
    repeat match goal with
           | E : fill _ = _ |- _ => try rewrite E in Hf; try rewrite E; clear E
           end;
    cbn -[bufSize]; rewrite ?Hth in *;
    (split; [first [assumption|reflexivity]|]);
    (split; [try exact I; try lia; try (destruct (fill s); lia)|]);
    try assumption;
    (constructor; [unfold write_ok; try exact I; lia | assumption]).
Qed.

Lemma bp_exec c s h : exec c s h -> Inv_bp c s h.
Proof.
  induction 1 as [|e s h s' o Hx IH Hs].
  - repeat split; constructor.
  - eapply bp_step; eassumption.
Qed.

(** *** Completion and teardown *)

Lemma done_step e s h s' o :
  Inv_done s h -> step e s = Some (s', o) -> Inv_done s' (o ++ h).
Proof.
  intros (H0 & H1 & Hh) H. unfold Inv_done.
  step_cases H;
   (cbn -[each reports]; rewrite ?Hmain;
    try (destruct (H0 eq_refl) as [Ha Hb]);
    try (assert (Hr : reports h = 1%nat) by (apply H1; discriminate));
    clear H0 H1;
    (split; [|split]);
    [ intros Hm; try discriminate Hm;
      unfold reports in *; cbn;
      first [ split; assumption
            | split; [assumption | constructor; [reflexivity|assumption]] ]
    | intros Hm; try (exfalso; apply Hm; reflexivity);
      unfold reports in *; cbn; first [assumption | f_equal; assumption]
    | first [ assumption
            | apply each_cons;
              [cbn; first [intros _; assumption | discriminate] | assumption] ] ]).
Qed.

Lemma done_exec c s h : exec c s h -> Inv_done s h.
Proof.
  induction 1 as [|e s h s' o Hx IH Hs].
  - repeat split; try constructor. + intros Hm; contradiction Hm; reflexivity.
    + apply each_nil.
  - eapply done_step; eassumption.
Qed.


(** *** The claims on the pump *)

Lemma dial_conn w slot sigserv c log :
  dial w slot sigserv [] = (inr c, log) ->
  BufferedAmountLowThreshold (d c) = lowWaterMark /\
  BufferedAmount (d c) = 0 /\
  In (OnBufferedAmountLow (dc_pc (d c))) log /\
  In (SetBufferedAmountLowThreshold (dc_pc (d c)) lowWaterMark) log.
Proof.
  intros H.
  unfold dial, bind in H.
  destruct (dial_post_offer w slot sigserv []) as [[e|[c0 remote]] log1] eqn:Hp;
    [discriminate H|].
  apply dial_post_offer_ok in Hp. destruct Hp as [-> (sdp & o & ->)].
  unfold dial_switch, dial_select, bind, NewPC, try_ok, try_call, call, lift,
    ret, raise in H.
  cbn -[lowWaterMark] in H. world_cases H; inversion H; subst;
    (split; [reflexivity|]); (split; [reflexivity|]);
    split; cbn -[lowWaterMark]; tauto.
Qed.

Lemma In_Forall_write th b nr h :
  Forall (write_ok th) h -> In (Wrote b nr) h -> b <= th /\ 0 < nr <= bufSize.
Proof.
  intros HF Hin. rewrite Forall_forall in HF. exact (HF _ Hin).
Qed.

(** C3. On the connection returned by [dial] the threshold is 512 KiB, the
    buffer 32 KiB, and [c.flushed] is the channel's buffered-amount-low
    callback. In every run of the pump: each write that was issued
    found at most 512 KiB queued and carried at most 32 KiB; a write issued
    next finds at most 512 KiB queued; a sender that finds more than the
    threshold at its check does not get past it other than into the wait; a
    waiting sender leaves the wait only when [c.flushed] signals; a
    signalled sender goes back to the check. *)
Theorem fill_backpressure w slot sigserv c log evs s h
  (Hdial : dial w slot sigserv [] = (inr c, log))
  (Hrun : run evs (pump c) [] = Some (s, h)) :
  lowWaterMark = 512 * 1024 /\ bufSize = 32 * 1024 /\
  In (OnBufferedAmountLow (dc_pc (d c))) log /\
  BufferedAmountLowThreshold (chan s) = lowWaterMark /\
  (forall b nr, In (Wrote b nr) h -> b <= lowWaterMark /\ 0 < nr <= bufSize) /\
  (forall e s' o, step e s = Some (s', o) ->
     (forall nw ew, e = ChannelWrite nw ew ->
                    BufferedAmount (chan s) <= lowWaterMark) /\
     (fill s = F_Check -> lowWaterMark < BufferedAmount (chan s) ->
      fill s' = F_Check \/ (e = FillStep /\ fill s' = F_Wait)) /\
     (fill s = F_Wait ->
      fill s' = F_Wait \/ (e = Flushed /\ fill s' = F_Woken)) /\
     (fill s = F_Woken ->
      fill s' = F_Woken \/ (e = FillStep /\ fill s' = F_Check))).
Proof.
  destruct (dial_conn _ _ _ _ _ Hdial) as (Hth0 & _ & Hcb & _).
  assert (Hx : exec c s h) by (eapply run_exec; [constructor|exact Hrun]).
  destruct (bp_exec _ _ _ Hx) as (Hth & Hf & Hh).
  rewrite Hth0 in *.
  split; [reflexivity|]. split; [reflexivity|]. split; [exact Hcb|].
  split; [exact Hth|].
  split; [intros b nr; apply In_Forall_write; exact Hh|].
  intros e s' o Hs.
  step_cases Hs;
    (cbn -[lowWaterMark]; rewrite ?Hth in *; tests;
     repeat match goal with
            | E : fill _ = _ |- _ => try rewrite E in Hf; try rewrite E; clear E
            end;
     (split; [intros nw' ew' He; try discriminate He; lia|]);
     (split; [|split]);
     (intros Hpc; try discriminate Hpc; intros;
      first [lia | left; assumption | left; reflexivity
            | right; split; reflexivity])).
Qed.


(** C2, as the code has it. In every run of the pump, [main] receives at
    most one completion, and at every step of the teardown (a poll of
    [BufferedAmount] or a close) exactly one completion had been received:
    teardown begins after the first direction reports, whichever it is. *)
Theorem teardown_after_first_report c evs s h
  (Hrun : run evs (pump c) [] = Some (s, h)) :
  (reports h <= 1)%nat /\
  (forall recent o past, h = recent ++ o :: past -> is_teardown o = true ->
                         reports past = 1%nat) /\
  (main s = M_Done <-> reports h = 0%nat).
Proof.
  assert (Hx : exec c s h) by (eapply run_exec; [constructor|exact Hrun]).
  destruct (done_exec _ _ _ Hx) as (H0 & H1 & Hh).
  assert (Hd : main s = M_Done \/ main s <> M_Done)
    by (destruct (main s); first [left; reflexivity | right; discriminate]).
  split; [|split].
  - destruct Hd as [Hd|Hd]; [rewrite (proj1 (H0 Hd))|rewrite (H1 Hd)]; lia.
  - exact Hh.
  - split; [intros Hd'; exact (proj1 (H0 Hd'))|].
    intros Hr. destruct Hd as [Hd|Hd]; [exact Hd|].
    rewrite (H1 Hd) in Hr. discriminate Hr.
Qed.

Lemma fill_only_runs :
  exists s,
    run fill_only (pump (conn_on 0%nat)) [] =
    Some (s, [ClosedConnection; ClosedChannel; ClosedRwc; Polled 0;
              Reported Fill]) /\
    drain s = D_Copy /\ main s = M_Return.
Proof.
  eexists. split; [vm_compute; reflexivity|]. split; reflexivity.
Qed.

(** C2, as stated, fails: in the run [fill_only] the buffer is polled and
    the channel and the connection are closed while the receive direction
    is still copying and has not reported. *)
Lemma teardown_waits_for_both_fails :
  ~ (forall c evs s h,
        run evs (pump c) [] = Some (s, h) ->
        forall recent o past, h = recent ++ o :: past -> is_teardown o = true ->
        In (Reported Drain) past /\ In (Reported Fill) past).
Proof.
  intros H.
  destruct fill_only_runs as (s & Hr & _).
  destruct (H _ _ _ _ Hr [] ClosedConnection _ eq_refl eq_refl) as [HD _].
  repeat (destruct HD as [HD|HD]; [discriminate HD|]). exact HD.
Qed.

(** *** Concrete runs *)

Lemma dial_dispatch_witness :
  let w := calm peer_offer in
  let url := "https://sig.example/42" in
  dial_post_offer w "42" "https://sig.example/" [] =
    (inr (conn_on 0%nat, peer_offer), offer_log url "v=0 offer" "v=0 offer") /\
  dial w "42" "https://sig.example/" [] =
    (inr (conn_on 1%nat),
     offer_log url "v=0 offer" "v=0 offer" ++
     answer_log 1%nat peer_offer url "v=0 answer" "v=0 answer" ++ [Select]).
Proof.
  intros w url.
  assert (Hresp : dial_post_offer w "42" "https://sig.example/" [] =
                  (inr (conn_on 0%nat, peer_offer),
                   offer_log url "v=0 offer" "v=0 offer"))
    by (vm_compute; reflexivity).
  split; [exact Hresp|].
  exact (proj2 (proj1 (proj2 (dial_dispatch _ _ _ _ _ _ Hresp)) eq_refl)
           "v=0 answer" "v=0 answer"
           {| StatusCode := 200; Status := "200 OK"; Body := "body" |}
           eq_refl eq_refl eq_refl eq_refl eq_refl eq_refl eq_refl eq_refl).
Defined.

Lemma fill_backpressure_witness :
  exists log s h,
    dial (calm peer_answer) "42" "https://sig.example/" [] =
      (inr (conn_on 0%nat), log) /\
    run one_wait (pump (conn_on 0%nat)) [] = Some (s, h) /\
    In (Blocked (17 * 32 * 1024)) h /\ In Resumed h /\
    In (Wrote (512 * 1024) (32 * 1024)) h /\
    forall b nr, In (Wrote b nr) h -> b <= lowWaterMark /\ 0 < nr <= bufSize.
Proof.
  eexists _, _, _.
  assert (Hdial : dial (calm peer_answer) "42" "https://sig.example/" [] =
                  (inr (conn_on 0%nat), _)) by (vm_compute; reflexivity).
  assert (Hrun : run one_wait (pump (conn_on 0%nat)) [] = Some (_, _))
    by (vm_compute; reflexivity).
  split; [exact Hdial|]. split; [exact Hrun|].
  split; [vm_compute; tauto|]. split; [vm_compute; tauto|].
  split; [vm_compute; tauto|].
  exact (proj1 (proj2 (proj2 (proj2 (proj2
           (fill_backpressure _ _ _ _ _ _ _ _ Hdial Hrun)))))).
Defined.


Lemma teardown_after_first_report_witness :
  exists s h,
    run fill_only (pump (conn_on 0%nat)) [] = Some (s, h) /\
    drain s = D_Copy /\ reports h = 1%nat /\
    forall recent o past, h = recent ++ o :: past -> is_teardown o = true ->
                          reports past = 1%nat.
Proof.
  eexists _, _.
  assert (Hrun : run fill_only (pump (conn_on 0%nat)) [] = Some (_, _))
    by (vm_compute; reflexivity).
  split; [exact Hrun|]. split; [reflexivity|]. split; [reflexivity|].
  exact (proj1 (proj2 (teardown_after_first_report _ _ _ _ Hrun))).
Defined.

(** ** More on [dial] *)

(** Every path through [dial], one goal each. *)
Ltac dial_paths :=
  unfold dial, dial_post_offer, dial_switch, dial_select, bind, NewPC, try_ok,
    try_call, call, lift, ret, raise;
  cbn -[lowWaterMark];
  repeat match goal with
         | |- context [match ?x with _ => _ end] =>
             lazymatch x with
             | context [match _ with _ => _ end] => fail
             | _ => let E := fresh "E" in
                    destruct x eqn:E; cbn -[lowWaterMark]
             end
         end.

(** X1. In every world [dial] allocates one or two endpoints and posts at
    most one request per endpoint; a second endpoint is allocated only
    after a 200 response to the first post decoded as an offer. *)
Theorem dial_bounded w slot sigserv :
  let log := snd (dial w slot sigserv []) in
  (1 <= allocations log <= 2)%nat /\
  (posts log <= allocations log)%nat /\
  (allocations log = 2%nat ->
   exists o res remote,
     post w (sigserv ++ slot) o = Some res /\ StatusCode res = StatusOK /\
     decode w (Body res) = Some remote /\ Type_ remote = SDPTypeOffer).
Proof.
  dial_paths.
  all: unfold allocations, posts; cbn.
  all: (split; [lia|]); (split; [lia|]).
  all: intros H2; try discriminate H2.
  all: tests; eexists _, _, _;
    (split; [multimatch goal with H : _ |- _ => exact H end|]);
    (split; [eassumption|]); split; eassumption.
Qed.

(** X2. When [dial] returns a connection, the channel opened before an
    error was reported, the connection and its data channel are on the last
    endpoint allocated, one request was posted per endpoint, a local and a
    remote description were set on that endpoint, the remote description
    was set exactly once, and the last thing [dial] did was the wait. *)
Theorem dial_success w slot sigserv c log :
  dial w slot sigserv [] = (inr c, log) ->
  selected w = None /\
  dc_pc (d c) = pc c /\ S (pc c) = allocations log /\
  posts log = allocations log /\
  List.length (filter is_SetRemoteDescription log) = 1%nat /\
  (exists sd, In (SetLocalDescription (pc c) sd) log) /\
  (exists sd, In (SetRemoteDescription (pc c) sd) log) /\
  last_call log = Some Select.
Proof.
  revert c log.
  assert (H : forall c,
             fst (dial w slot sigserv []) = inr c ->
             let log := snd (dial w slot sigserv []) in
             selected w = None /\
             dc_pc (d c) = pc c /\ S (pc c) = allocations log /\
             posts log = allocations log /\
             List.length (filter is_SetRemoteDescription log) = 1%nat /\
             (exists sd, In (SetLocalDescription (pc c) sd) log) /\
             (exists sd, In (SetRemoteDescription (pc c) sd) log) /\
             last_call log = Some Select).
  { dial_paths; intros c H; try discriminate H; inversion H; subst;
      repeat split; try reflexivity; try assumption;
      eexists; cbn; tauto. }
  intros c log Hd. specialize (H c). rewrite Hd in H. apply H. reflexivity.
Qed.

(** X3. Whatever [dial] sets as remote description was decoded from the
    body of a 200 response to a post at [sigserv+slot], has type offer or
    answer, and is set on the last endpoint allocated. *)
Theorem dial_remote_provenance w slot sigserv p sd :
  In (SetRemoteDescription p sd) (snd (dial w slot sigserv [])) ->
  S p = allocations (snd (dial w slot sigserv [])) /\
  (Type_ sd = SDPTypeOffer \/ Type_ sd = SDPTypeAnswer) /\
  exists o res,
    post w (sigserv ++ slot) o = Some res /\ StatusCode res = StatusOK /\
    decode w (Body res) = Some sd.
Proof.
  dial_paths; intros Hin; cbn in Hin;
    repeat (destruct Hin as [Hin|Hin]; [try discriminate Hin|]);
    try contradiction;
    inversion Hin; subst; tests;
    (split; [reflexivity|]); (split; [tauto|]);
    eexists _, _;
    (split; [multimatch goal with H : _ |- _ => exact H end|]);
    split; eassumption.
Qed.

Ltac post_position H :=
  lazymatch type of H with
  | [] = ?pre ++ _ :: _ => destruct pre; discriminate H
  | _ :: _ = ?pre ++ _ :: _ =>
      let c := fresh "c" in
      destruct pre as [|c pre]; cbn in H;
      [ injection H as H ?; try discriminate H
      | let E := fresh "E" in
        injection H as E H; subst c; post_position H ]
  end.

(** X4. Every request of [dial] goes to [sigserv+slot] and carries the
    marshalled form of a description already set as local description on
    the endpoint that is current at that moment. *)
Theorem dial_posts_local_description w slot sigserv pre url body rest :
  snd (dial w slot sigserv []) = pre ++ Post url body :: rest ->
  url = (sigserv ++ slot)%string /\
  exists p sd,
    In (SetLocalDescription p sd) pre /\ marshal w sd = Some body /\
    S p = allocations pre.
Proof.
  dial_paths; intros H; post_position H;
    inversion H; subst;
    (split; [reflexivity|]);
    multimatch goal with
    | Hm : marshal w ?sd = Some _ |- _ =>
        eexists _, sd;
        split; [cbn; solve [repeat first [left; reflexivity | right]]
               | split; [exact Hm | reflexivity]]
    end.
Qed.

(** X5. [dial] stops at the first failure: an error of a webrtc or http
    call is returned right after that call; on a marshal, status, decode or
    unknown-type error the last call was the post or the setting of the
    local description, and the wait is never reached; the wait is the last
    call exactly when [dial] returns a connection or the channel's error,
    and then the remote description was set exactly once. *)
Theorem dial_stops_at_failure w slot sigserv :
  let log := snd (dial w slot sigserv []) in
  match fst (dial w slot sigserv []) with
  | inl (ErrCall c) => last_call log = Some c /\ c <> Select
  | inl (ErrChannel _) | inr _ =>
      last_call log = Some Select /\
      List.length (filter is_SetRemoteDescription log) = 1%nat
  | inl _ => ~ In Select log /\
             match last_call log with
             | Some (Post _ _) => True
             | Some (SetLocalDescription _ _) => True
             | _ => False
             end
  end.
Proof.
  dial_paths; split; try reflexivity; try discriminate; try exact I;
    cbn; intuition discriminate.
Qed.

(** ** More on the data pump *)

Lemma queue_step c e s h s' o :
  Inv_bp c s h -> Inv_queue c s -> 0 <= bufSize ->
  step e s = Some (s', o) -> Inv_queue c s'.
Proof.
  intros (Hth & Hf & Hh) (Hq1 & Hq2) Hb H. unfold Inv_queue.
  step_cases H; tests;
    repeat match goal with
           | E : fill _ = _ |- _ => try rewrite E in Hf; clear E
           end;
    cbn -[bufSize]; rewrite ?Hth in *; lia.
Qed.

Lemma queue_exec c s h :
  BufferedAmount (d c) = 0 -> 0 <= BufferedAmountLowThreshold (d c) ->
  exec c s h -> Inv_queue c s.
Proof.
  intros H0 Hth. induction 1 as [|e s h s' o Hx IH Hs].
  - unfold Inv_queue. cbn. rewrite H0. cbn. lia.
  - eapply queue_step; try eassumption; [apply bp_exec; exact Hx|].
    cbn. lia.
Qed.

(** X6. In every run of the pump on a connection returned by [dial], the
    amount queued on the channel is never negative, never more than the
    bytes the sender has written ([n]), and never more than 544 KiB (the
    threshold plus one buffer). *)
Theorem queue_bounded w slot sigserv c log evs s h
  (Hdial : dial w slot sigserv [] = (inr c, log))
  (Hrun : run evs (pump c) [] = Some (s, h)) :
  0 <= BufferedAmount (chan s) <= fill_n s /\
  BufferedAmount (chan s) <= (512 + 32) * 1024.
Proof.
  destruct (dial_conn _ _ _ _ _ Hdial) as (Hth & H0 & _).
  assert (Hx : exec c s h) by (eapply run_exec; [constructor|exact Hrun]).
  destruct (queue_exec c s h H0) as [H1 H2]; [rewrite Hth; cbn; lia|exact Hx|].
  rewrite Hth in H2. cbn in H2. split; [exact H1|]. cbn. lia.
Qed.

Lemma lock_bool s :
  Inv_lock s <->
  locked s = match fill s with F_Check | F_Unlock => true | _ => false end.
Proof.
  unfold Inv_lock. destruct (locked s), (fill s);
    intuition (try discriminate; try congruence).
Qed.

Lemma lock_step e s s' o :
  Inv_lock s -> step e s = Some (s', o) -> Inv_lock s'.
Proof.
  rewrite !lock_bool. intros Hl H.
  step_cases H; cbn;
    repeat match goal with
           | E : fill ?x = _ |- context [fill ?x] => rewrite E
           | E : locked ?x = true |- context [locked ?x] => rewrite E
           | E : locked ?x = false |- context [locked ?x] => rewrite E
           end;
    first [reflexivity | assumption | discriminate Hl].
Qed.

(** X7. In every run of the pump the lock of [flushc] is held exactly
    while the sender is at its check or its [Unlock]; so [c.flushed] is
    held back exactly then, and cannot signal between a check that found
    the queue too long and the [Wait] that follows it. *)
Theorem lock_discipline c evs s h
  (Hrun : run evs (pump c) [] = Some (s, h)) :
  (locked s = true <-> (fill s = F_Check \/ fill s = F_Unlock)) /\
  (main s <> M_Return ->
   (flushed s = None <-> (fill s = F_Check \/ fill s = F_Unlock)) /\
   (step Flushed s = None <-> (fill s = F_Check \/ fill s = F_Unlock))).
Proof.
  assert (Hx : exec c s h) by (eapply run_exec; [constructor|exact Hrun]).
  assert (Hl : Inv_lock s).
  { clear Hrun. induction Hx as [|e s h s' o Hx IH Hs].
    - split; [discriminate|intros [H|H]; discriminate H].
    - eapply lock_step; eassumption. }
  split; [exact Hl|]. intros Hm.
  assert (Hf : flushed s = None <-> (fill s = F_Check \/ fill s = F_Unlock)).
  { unfold flushed. unfold Inv_lock in Hl. destruct (locked s).
    - split; [intros _; apply Hl; reflexivity|reflexivity].
    - split.
      + destruct (fill s); discriminate.
      + intros H. apply Hl in H. discriminate H. }
  split; [exact Hf|].
  unfold step. destruct (main s); try exact Hf. contradiction Hm; reflexivity.
Qed.

Lemma exit_bool s : Inv_exit s <-> exit_ok s = true.
Proof.
  unfold Inv_exit, exit_ok. destruct (main s), (drain s), (fill s);
    intuition (try discriminate; try congruence).
Qed.

Lemma exit_step e s s' o :
  Inv_exit s -> step e s = Some (s', o) -> Inv_exit s'.
Proof.
  rewrite !exit_bool. unfold exit_ok. intros Hl H.
  step_cases H; cbn;
    repeat match goal with
           | E : fill ?x = _ |- context [fill ?x] => rewrite E
           | E : drain ?x = _ |- context [drain ?x] => rewrite E
           | E : main ?x = _ |- context [main ?x] => rewrite E
           end;
    first [reflexivity | assumption | discriminate Hl
          | destruct (drain s); first [reflexivity | assumption | discriminate Hl]
          | destruct (fill s); first [reflexivity | assumption | discriminate Hl]
          | destruct (drain s), (fill s);
            first [reflexivity | assumption | discriminate Hl] ].
Qed.

(** X9. Of the two goroutines at most one ever gets past its send on
    [done]: none before [main] has received, exactly one afterwards, and
    from then on no send on [done] completes. *)
Theorem one_goroutine_left c evs s h
  (Hrun : run evs (pump c) [] = Some (s, h)) :
  (main s = M_Done -> drain s <> D_Exit /\ fill s <> F_Exit) /\
  (main s <> M_Done ->
   (drain s = D_Exit /\ fill s <> F_Exit) \/
   (drain s <> D_Exit /\ fill s = F_Exit)) /\
  (main s <> M_Done -> forall who, step (Handoff who) s = None).
Proof.
  assert (Hx : exec c s h) by (eapply run_exec; [constructor|exact Hrun]).
  assert (Hi : Inv_exit s).
  { clear Hrun. induction Hx as [|e s h s' o Hx IH Hs].
    - apply exit_bool. reflexivity.
    - eapply exit_step; eassumption. }
  destruct Hi as [H0 H1]. split; [exact H0|]. split; [exact H1|].
  intros Hm who. unfold step, handoff.
  destruct (main s); try reflexivity. contradiction Hm; reflexivity.
Qed.

Lemma ended_step e s s' o :
  fill_ended s -> step e s = Some (s', o) ->
  fill_ended s' /\ fill_err s' = fill_err s /\ fill_n s' = fill_n s /\
  filter is_Wrote o = [].
Proof.
  unfold fill_ended. intros Hf H.
  step_cases H; cbn;
    repeat match goal with
           | E : fill ?x = _ |- context [fill ?x] => rewrite E
           end;
    try (destruct Hf as [Hf|Hf]; discriminate Hf);
    repeat split; try reflexivity; try assumption;
    first [left; reflexivity | right; reflexivity].
Qed.

Lemma ended_run evs : forall s h s' h',
  fill_ended s -> run evs s h = Some (s', h') ->
  fill_ended s' /\ fill_err s' = fill_err s /\ fill_n s' = fill_n s /\
  filter is_Wrote h' = filter is_Wrote h.
Proof.
  induction evs as [|e evs IH]; simpl; intros s h s' h' Hf Hr.
  - inversion Hr; subst. repeat split; try reflexivity. exact Hf.
  - destruct (step e s) as [[s1 o]|] eqn:Hs; [|discriminate Hr].
    destruct (ended_step _ _ _ _ Hf Hs) as (Hf1 & He1 & Hn1 & Ho).
    destruct (IH _ _ _ _ Hf1 Hr) as (Hf2 & He2 & Hn2 & Hh).
    split; [exact Hf2|]. split; [congruence|]. split; [congruence|].
    rewrite Hh, filter_app, Ho. reflexivity.
Qed.

(** X8. A write that returns an error or is short ends the send loop for
    good: whatever happens next, the loop stays ended, [err] holds the
    write's error (or [io.ErrShortWrite]), [n] counts the bytes of that
    write and no further write is issued. *)
Theorem write_failure_is_final s nr er nw ew s1 o evs h s2 h2
  (Hpc : fill s = F_Write nr er)
  (Hbad : ew <> None \/ nw <> nr)
  (Hstep : step (ChannelWrite nw ew) s = Some (s1, o))
  (Hrun : run evs s1 h = Some (s2, h2)) :
  (fill s2 = F_Done \/ fill s2 = F_Exit) /\
  fill_err s2 = Some (match ew with Some e => e | None => ErrShortWrite end) /\
  fill_n s2 = fill_n s + nw /\
  filter is_Wrote h2 = filter is_Wrote h.
Proof.
  assert (H1 : fill_ended s1 /\
               fill_err s1 =
                 Some (match ew with Some e => e | None => ErrShortWrite end) /\
               fill_n s1 = fill_n s + nw).
  { unfold step, channel_write in Hstep. rewrite Hpc in Hstep.
    destruct (main s); try discriminate Hstep;
      (destruct ((0 <=? nw) && (nw <=? nr))%bool; [|discriminate Hstep]);
      (destruct ew as [e|];
       [ inversion Hstep; subst; cbn; repeat split; left; reflexivity
       | destruct Hbad as [Hb|Hb]; [contradiction Hb; reflexivity|];
         assert (Hne : (nr =? nw) = false) by (apply Z.eqb_neq; congruence);
         rewrite Hne in Hstep; inversion Hstep; subst; cbn;
         repeat split; left; reflexivity ]). }
  destruct H1 as (Hf & He & Hn).
  destruct (ended_run _ _ _ _ _ Hf Hrun) as (Hf2 & He2 & Hn2 & Hh).
  split; [exact Hf2|]. split; [congruence|]. split; [congruence|exact Hh].
Qed.

(** ** The [-ice] flag *)

Lemma Split_nonempty s : Split s <> [].
Proof.
  destruct s as [|a s]; cbn; [discriminate|].
  destruct (Ascii.eqb a ","); [discriminate|].
  destruct (Split s); discriminate.
Qed.

Lemma Join_cons a x xs :
  Join (String a x :: xs) = String a (Join (x :: xs)).
Proof. destruct xs; reflexivity. Qed.

Lemma Join_Split s : Join (Split s) = s.
Proof.
  induction s as [|a s IH]; [reflexivity|]. cbn [Split].
  destruct (Ascii.eqb a ",") eqn:E.
  - apply Ascii.eqb_eq in E. subst a.
    destruct (Split s) as [|x xs] eqn:Es; [exact (False_ind _ (Split_nonempty s Es))|].
    change (Join ("" :: x :: xs)) with (String "," (Join (x :: xs))).
    rewrite IH. reflexivity.
  - destruct (Split s) as [|x xs] eqn:Es; [exact (False_ind _ (Split_nonempty s Es))|].
    rewrite Join_cons, IH. reflexivity.
Qed.

Lemma Split_length s : List.length (Split s) = S (commas s).
Proof.
  induction s as [|a s IH]; [reflexivity|]. cbn [Split commas].
  destruct (Ascii.eqb a ","); cbn [List.length Nat.add]; [rewrite IH; reflexivity|].
  destruct (Split s) as [|x xs]; [discriminate IH|exact IH].
Qed.

Lemma Split_no_comma s : Forall (fun x => commas x = 0%nat) (Split s).
Proof.
  induction s as [|a s IH]; [repeat constructor|]. cbn [Split].
  destruct (Ascii.eqb a ",") eqn:E; [constructor; [reflexivity|exact IH]|].
  destruct (Split s) as [|x xs]; [repeat constructor; cbn; rewrite E; reflexivity|].
  inversion IH; subst. constructor; [|assumption].
  cbn. rewrite E. assumption.
Qed.

Lemma concat_singletons (l : list string) :
  List.concat (map (fun x => [x]) l) = l.
Proof. induction l as [|x l IH]; [reflexivity|]. cbn. rewrite IH. reflexivity. Qed.

(** X10. The configuration [main] builds from the [-ice] flag: no server
    exactly when the flag is empty; otherwise one server per
    comma-separated item (one more than there are commas), each with
    exactly one URL, none containing a comma; and joining the URLs with
    commas gives the flag back. *)
Theorem rtccfg_servers (iceserv : string) :
  let servers := ICEServers (rtccfg iceserv) in
  (iceserv = "" <-> servers = []) /\
  (iceserv <> "" -> List.length servers = S (commas iceserv)) /\
  Forall (fun srv => exists u, URLs srv = [u] /\ commas u = 0%nat) servers /\
  Join (List.concat (map URLs servers)) = iceserv.
Proof.
  unfold rtccfg. cbn.
  destruct (iceserv =? "")%string eqn:E; cbn.
  - apply String.eqb_eq in E. subst. repeat split; try reflexivity.
    + intros H. contradiction H; reflexivity.
    + constructor.
  - apply String.eqb_neq in E. split; [|split; [|split]].
    + split; [contradiction|]. intros H.
      apply map_eq_nil in H. exact (False_ind _ (Split_nonempty _ H)).
    + intros _. rewrite length_map. apply Split_length.
    + apply Forall_map. eapply Forall_impl; [|apply Split_no_comma].
      intros u Hu. exists u. split; [reflexivity|exact Hu].
    + rewrite map_map. cbn [URLs]. rewrite concat_singletons. apply Join_Split.
Qed.

(** *** Concrete runs for the above *)

Lemma dial_success_witness :
  exists log,
    dial (calm peer_answer) "42" "https://sig.example/" [] =
      (inr (conn_on 0%nat), log) /\
    posts log = 1%nat /\ last_call log = Some Select.
Proof.
  eexists.
  assert (Hd : dial (calm peer_answer) "42" "https://sig.example/" [] =
               (inr (conn_on 0%nat), _)) by (vm_compute; reflexivity).
  split; [exact Hd|].
  pose proof (dial_success _ _ _ _ _ Hd) as (_ & _ & _ & Hp & _ & _ & _ & Hl).
  split; [exact Hp|exact Hl].
Defined.

Lemma dial_remote_provenance_witness :
  In (SetRemoteDescription 1%nat peer_offer)
     (snd (dial (calm peer_offer) "42" "https://sig.example/" [])) /\
  (Type_ peer_offer = SDPTypeOffer \/ Type_ peer_offer = SDPTypeAnswer).
Proof.
  assert (Hin : In (SetRemoteDescription 1%nat peer_offer)
                   (snd (dial (calm peer_offer) "42" "https://sig.example/" [])))
    by (vm_compute; tauto).
  split; [exact Hin|].
  exact (proj1 (proj2 (dial_remote_provenance _ _ _ _ _ Hin))).
Defined.

Lemma dial_posts_local_description_witness :
  exists pre rest,
    snd (dial (calm peer_answer) "42" "https://sig.example/" []) =
      pre ++ Post "https://sig.example/42" "v=0 offer" :: rest /\
    exists p sd,
      In (SetLocalDescription p sd) pre /\
      marshal (calm peer_answer) sd = Some "v=0 offer" /\
      S p = allocations pre.
Proof.
  exists (removelast (offer_log "" "v=0 offer" "")),
         [SetRemoteDescription 0%nat peer_answer; Select].
  assert (H : snd (dial (calm peer_answer) "42" "https://sig.example/" []) =
              removelast (offer_log "" "v=0 offer" "") ++
              Post "https://sig.example/42" "v=0 offer" ::
              [SetRemoteDescription 0%nat peer_answer; Select])
    by (vm_compute; reflexivity).
  split; [exact H|].
  exact (proj2 (dial_posts_local_description _ _ _ _ _ _ _ H)).
Defined.

Lemma queue_bounded_witness :
  exists log s h,
    dial (calm peer_answer) "42" "https://sig.example/" [] =
      (inr (conn_on 0%nat), log) /\
    run one_wait (pump (conn_on 0%nat)) [] = Some (s, h) /\
    fill_n s = 17 * 32 * 1024 /\
    0 <= BufferedAmount (chan s) <= fill_n s /\
    BufferedAmount (chan s) <= (512 + 32) * 1024.
Proof.
  eexists _, _, _.
  assert (Hdial : dial (calm peer_answer) "42" "https://sig.example/" [] =
                  (inr (conn_on 0%nat), _)) by (vm_compute; reflexivity).
  assert (Hrun : run one_wait (pump (conn_on 0%nat)) [] = Some (_, _))
    by (vm_compute; reflexivity).
  split; [exact Hdial|]. split; [exact Hrun|]. split; [reflexivity|].
  exact (queue_bounded _ _ _ _ _ _ _ _ Hdial Hrun).
Defined.

Lemma lock_discipline_witness :
  exists s h,
    run [FillStep; FillStep] (pump (conn_on 0%nat)) [] = Some (s, h) /\
    fill s = F_Unlock /\ locked s = true /\ step Flushed s = None.
Proof.
  eexists _, _.
  assert (Hrun : run [FillStep; FillStep] (pump (conn_on 0%nat)) [] =
                 Some (_, _)) by (vm_compute; reflexivity).
  split; [exact Hrun|]. split; [reflexivity|].
  pose proof (lock_discipline _ _ _ _ Hrun) as [Hl Hf].
  split.
  - apply Hl. right. reflexivity.
  - apply (proj2 (Hf ltac:(discriminate))). right. reflexivity.
Defined.

Lemma write_failure_is_final_witness :
  exists s1 o s2 h2,
    run [FillStep; FillStep; FillStep; StdinRead 10 None]
        (pump (conn_on 0%nat)) [] = Some (at_write, []) /\
    step (ChannelWrite 4 None) at_write = Some (s1, o) /\
    run after_write s1 [] = Some (s2, h2) /\
    fill s2 = F_Exit /\ fill_err s2 = Some ErrShortWrite /\ fill_n s2 = 4.
Proof.
  eexists _, _, _, _.
  assert (H1 : step (ChannelWrite 4 None) at_write = Some (_, _))
    by (vm_compute; reflexivity).
  match type of H1 with
  | _ = Some (?s1, _) =>
      assert (H2 : run after_write s1 [] = Some (_, _))
        by (vm_compute; reflexivity)
  end.
  split; [vm_compute; reflexivity|].
  split; [exact H1|]. split; [exact H2|].
  split; [reflexivity|].
  assert (Hpc : fill at_write = F_Write 10 None) by reflexivity.
  assert (Hbad : @None ioerr <> None \/ 4 <> 10) by (right; discriminate).
  pose proof (write_failure_is_final _ _ _ _ _ _ _ _ _ _ _ Hpc Hbad H1 H2)
    as (_ & He & Hn & _).
  split; [exact He|exact Hn].
Defined.

Lemma one_goroutine_left_witness :
  exists s h,
    run fill_only (pump (conn_on 0%nat)) [] = Some (s, h) /\
    drain s <> D_Exit /\ fill s = F_Exit /\
    step (Handoff Drain) s = None.
Proof.
  eexists _, _.
  assert (Hrun : run fill_only (pump (conn_on 0%nat)) [] = Some (_, _))
    by (vm_compute; reflexivity).
  split; [exact Hrun|].
  split; [discriminate|]. split; [reflexivity|].
  exact (proj2 (proj2 (one_goroutine_left _ _ _ _ Hrun)) ltac:(discriminate)
           Drain).
Defined.

End RtcpipeProofs.

(* ===================================================================== *)
(** * Properties of web/ww.ts *)
(* ===================================================================== *)

Module WWProofs.
Import WW.

Lemma append_nil_r (s : string) : (s ++ "")%string = s.
Proof. induction s as [|a s IH]; simpl; [reflexivity|]. now rewrite IH. Qed.

Lemma append_assoc (s1 s2 s3 : string) :
  ((s1 ++ s2) ++ s3)%string = (s1 ++ (s2 ++ s3))%string.
Proof. induction s1 as [|a s1 IH]; simpl; [reflexivity|]. now rewrite IH. Qed.

Section Facts.

Context {wasm : webwormhole.API} {browser : Browser}.

(** ** [wsserver] *)

(** C9. The slot is appended to the path exactly when it is present and
    truthy: with slot 0 (and with NaN) [wsserver] returns what it returns
    with no slot, for every URL; with a nonzero slot it returns that
    address followed by the slot in decimal. *)
Theorem wsserver_slot_zero (url : string) :
  wsserver url (Some (Num 0)) = wsserver url None /\
  wsserver url (Some NaN) = wsserver url None /\
  forall z, z <> 0 ->
    wsserver url (Some (Num z)) =
    option_map (fun base => (base ++ number_toString (Num z))%string)
               (wsserver url None).
Proof.
  unfold wsserver, truthy, slot_toString.
  destruct (new_URL url) as [u|].
  - split; [reflexivity|]. split; [reflexivity|].
    intros z Hz. apply Z.eqb_neq in Hz. rewrite Hz.
    unfold negb, option_map. rewrite !append_assoc. reflexivity.
  - split; [reflexivity|]. split; [reflexivity|]. reflexivity.
Qed.

(** ** [onclose] *)

(** C10. A close with code 4004 or 1001 changes nothing and rejects
    nothing: the session, its state included, is what it was and there is
    no effect. A close with a code outside 4000..4004 and 1001 fails the
    session: the state becomes [error], nothing else of the session
    changes, and both promises are rejected with
    "websocket session closed: <reason> (<code>)". *)
Theorem onclose_codes (code : Z) (reason : string) (w : Wormhole) :
  (code = 4004 \/ code = 1001 ->
   onclose code reason w = (w, []) /\
   state (fst (onclose code reason w)) = state w /\
   snd (onclose code reason w) = []) /\
  (code <> 4000 -> code <> 4001 -> code <> 4002 -> code <> 4003 ->
   code <> 4004 -> code <> 1001 ->
   let r := ("websocket session closed: " ++ reason ++ " ("
             ++ NilZero.string_of_int (Z.to_int code) ++ ")")%string in
   onclose code reason w = (set_state error w, [signalReject r; doneReject r]) /\
   state (fst (onclose code reason w)) = error /\
   snd (onclose code reason w) = [signalReject r; doneReject r] /\
   pc (fst (onclose code reason w)) = pc w /\
   ws (fst (onclose code reason w)) = ws w /\
   key (fst (onclose code reason w)) = key w /\
   finishThen (fst (onclose code reason w)) = finishThen w).
Proof.
  unfold onclose. split.
  - intros [-> | ->]; repeat split.
  - intros H0 H1 H2 H3 H4 H5.
    apply Z.eqb_neq in H0, H1, H2, H3, H4, H5.
    rewrite H0, H1, H2, H3, H4, H5. repeat split.
Qed.

(** ** [onmessage] *)

(** C7. A message handled in state [error] leaves the session as it is and
    has no effect: nothing is sent, closed, resolved or rejected. *)
Theorem error_absorbs_messages (data : string) (w : Wormhole)
  (Herr : state w = error) :
  onmessage data w = (w, []).
Proof.
  unfold onmessage. rewrite Herr. destruct (ws w); reflexivity.
Qed.

(** ** Invariants of the sessions *)

(** Split on whatever the handler branches on, innermost first. *)
Ltac branch :=
  repeat match goal with
         | |- context [match ?x with _ => _ end] =>
             lazymatch x with
             | context [match _ with _ => _ end] => fail
             | _ => let E := fresh "E" in destruct x eqn:E; cbn
             end
         end.

Ltac handlers :=
  unfold handle, onmessage, onerror, onclose, onicecandidate, run_deferred,
    bad_key, fail, finishPromise_then, makePeerConnection, parse_opened.

Lemma onclose_cases code reason w :
  onclose code reason w = (w, []) \/ exists r, onclose code reason w = fail r w.
Proof.
  unfold onclose.
  repeat match goal with
         | |- context [if ?b then _ else _] => destruct b
         end; eauto.
Qed.

Lemma Inv_handle e w : Inv w -> Inv (fst (handle e w)).
Proof.
  intros H. destruct e as [data| |code reason|c| |].
  - destruct w as [p st sl c s k fr ft]. unfold Inv in *. cbn in H.
    handlers; cbn; destruct st; cbn in *; branch;
      repeat split; try discriminate; try tauto.
  - exact I.
  - cbn. destruct (onclose_cases code reason w) as [-> | [r ->]];
      [exact H | exact I].
  - destruct w as [p st sl c' s k fr ft]. unfold Inv in *. cbn in H.
    handlers; cbn; branch; exact H.
  - exact H.
  - destruct w as [p st sl c s k fr ft]. unfold Inv in *. cbn in H.
    handlers; cbn; destruct st; cbn in *; branch;
      repeat split; try discriminate; try tauto.
Qed.

Lemma Inv_constructor signalserver code random w :
  constructor signalserver code random = Some w -> Inv w.
Proof.
  unfold constructor, dial. intros H.
  destruct (negb (code =? "")%string).
  - destruct (webwormhole.decode code) as [n p].
    destruct (List.length p =? 0)%nat; [discriminate H|].
    inversion H; subst. exact I.
  - inversion H; subst. exact I.
Qed.

Lemma reachable_Inv w : reachable w -> Inv w.
Proof.
  induction 1 as [ss code rnd w H | e w H IH].
  - eapply Inv_constructor; exact H.
  - apply Inv_handle; exact IH.
Qed.

(** ** Messages that do not fit, and messages that do not open *)

(** C6, as the code has it. For every session the class can be in and
    every message that does not fit its state and on which [JSON.parse]
    does not throw (where an offer is awaited, a message that yields no
    value or a value that is not an offer; where an answer is awaited,
    likewise; any message in [wait_for_pc_initialize],
    [wait_for_local_offer], [wait_for_local_answer]), [onmessage] fails the
    session: the state becomes [error], nothing else of the session
    changes, so the peer connection and the queue of deferred actions on it
    are what they were, and the effects are the two rejections, followed by
    the sealed "bye" and the close when the message yielded no value; no
    call is made on the peer connection. A message that opens to a text
    that is not JSON where an offer or an answer is awaited does not fail
    the session: [JSON.parse] throws and the session stays as it was. *)
Theorem inconsistent_message_fails (data : string) (w : Wormhole)
  (Hr : reachable w) :
  (inconsistent w data ->
   state (fst (onmessage data w)) = error /\
   fst (onmessage data w) = set_state error w /\
   pc (fst (onmessage data w)) = pc w /\
   finishThen (fst (onmessage data w)) = finishThen w /\
   (snd (onmessage data w) =
      [signalReject "unexpected message"; doneReject "unexpected message"] \/
    exists k,
      key w = Some k /\ parse_opened k data = Falsy /\
      snd (onmessage data w) =
        [signalReject "bad key"; doneReject "bad key";
         ws_send SealedBye (webwormhole.seal k "bye"); ws_close closeBadKey])) /\
  (not_json w data ->
   onmessage data w = (w, [throw]) /\
   state (fst (onmessage data w)) = state w).
Proof.
  apply reachable_Inv in Hr. unfold Inv, inconsistent, not_json in *. split.
  - intros Hu.
    assert (H : onmessage data w =
                  (set_state error w,
                   [signalReject "unexpected message";
                    doneReject "unexpected message"]) \/
                exists k,
                  key w = Some k /\ parse_opened k data = Falsy /\
                  onmessage data w =
                    (set_state error w,
                     [signalReject "bad key"; doneReject "bad key";
                      ws_send SealedBye (webwormhole.seal k "bye");
                      ws_close closeBadKey])).
    { unfold onmessage.
      destruct (state w); try contradiction.
      - destruct Hu as (k & Hk & Hp). destruct Hr as (Hws & Hpc & _).
        destruct (ws w); [|contradiction].
        destruct (pc w); [|contradiction].
        destruct (parse_opened k data) as [| |msg] eqn:E; [contradiction| |].
        + right. exists k. rewrite Hk, E. repeat split.
        + left. rewrite Hk, E, Hp. reflexivity.
      - destruct Hu as (k & Hk & Hp). destruct Hr as (Hws & Hpc & _).
        destruct (ws w); [|contradiction].
        destruct (pc w); [|contradiction].
        destruct (parse_opened k data) as [| |msg] eqn:E; [contradiction| |].
        + right. exists k. rewrite Hk, E. repeat split.
        + left. rewrite Hk, E, Hp. reflexivity.
      - destruct Hr as (Hws & _). destruct (ws w); [|contradiction].
        left. reflexivity. }
    destruct H as [H | (k & Hk & Hp & H)]; rewrite H; cbn;
      repeat split; [left; reflexivity|].
    right. exists k. repeat split; assumption.
  - intros (Hst & k & Hk & Hp).
    assert (H : onmessage data w = (w, [throw])).
    { unfold onmessage.
      destruct Hst as [Hst | Hst]; rewrite Hst in *;
        destruct Hr as (Hws & Hpc & _);
        (destruct (ws w); [|contradiction]); rewrite Hk;
        (destruct (pc w); [|contradiction]); rewrite Hp; reflexivity. }
    rewrite H. split; reflexivity.
Qed.

(** C5, as the code has it. In the three states whose case opens the
    message ([wait_for_webtc_offer], [wait_for_webtc_answer],
    [wait_for_candidates]), a message that does not open under the key
    fails the session with "bad key": the state becomes [error], both
    promises are rejected, then a sealed "bye" is sent and the socket is
    closed with 4005. *)
Theorem bad_key_fails (data : string) (w : Wormhole) (k : Uint8Array)
  (Hr : reachable w) (Hk : key w = Some k)
  (Hst : opens_messages (state w) = true)
  (Hopen : webwormhole.open k data = None) :
  onmessage data w =
    (set_state error w,
     [signalReject "bad key"; doneReject "bad key";
      ws_send SealedBye (webwormhole.seal k "bye"); ws_close 4005]) /\
  state (fst (onmessage data w)) = error.
Proof.
  apply reachable_Inv in Hr. unfold Inv in Hr.
  unfold onmessage, parse_opened.
  destruct (state w); try discriminate Hst;
    destruct Hr as (Hws & Hpc & _);
    (destruct (ws w); [|contradiction]); rewrite Hk;
    (destruct (pc w); [|contradiction]); rewrite Hopen; split; reflexivity.
Qed.

Lemma reachable_run evs : forall w, reachable w -> reachable (fst (run evs w)).
Proof.
  induction evs as [|e evs IH]; intros w Hr; [exact Hr|].
  simpl. specialize (IH _ (reachable_handle e w Hr)).
  destruct (handle e w) as [w1 eff1]. simpl in IH.
  destruct (run evs w1) as [w2 eff2]. exact IH.
Qed.

(** ** The two roles *)

Lemma sites_app eff1 eff2 : sites (eff1 ++ eff2) = sites eff1 ++ sites eff2.
Proof. unfold sites. apply flat_map_app. Qed.

Ltac role_cases :=
  handlers; cbn; branch; cbn in *;
  rewrite ?forallb_app; cbn;
  repeat match goal with
         | H : (_ && _)%bool = true |- _ => apply andb_true_iff in H; destruct H
         end;
  try discriminate; try contradiction;
  repeat match goal with
         | H : ?x = true |- context [?x] => rewrite H
         end;
  repeat split; try reflexivity; try assumption.

Lemma joiner_handle e w :
  joiner_inv w ->
  joiner_inv (fst (handle e w)) /\
  forallb joiner_site (sites (snd (handle e w))) = true.
Proof.
  intros H. destruct e as [data| |code reason|c| |].
  - destruct w as [p st sl c s k fr ft]. unfold joiner_inv in *. cbn in H.
    destruct H as [Hs Hq]. destruct st; try contradiction; role_cases.
  - destruct H as [Hs Hq]. repeat split; assumption.
  - cbn. destruct (onclose_cases code reason w) as [-> | [r ->]]; cbn.
    + split; [exact H|reflexivity].
    + destruct H as [Hs Hq]. repeat split; assumption.
  - destruct w as [p st sl c' s k fr ft]. unfold joiner_inv in *. cbn in H.
    destruct H as [Hs Hq]. role_cases.
  - split; [exact H|reflexivity].
  - destruct w as [p st sl c s k fr ft]. unfold joiner_inv in *. cbn in H.
    destruct H as [Hs Hq]. destruct st; try contradiction; role_cases.
Qed.

Lemma joiner_run evs : forall w,
  joiner_inv w -> forallb joiner_site (sites (snd (run evs w))) = true.
Proof.
  induction evs as [|e evs IH]; intros w H; [reflexivity|].
  simpl. destruct (joiner_handle e w H) as [H1 H2].
  specialize (IH _ H1).
  destruct (handle e w) as [w1 eff1]. simpl in *.
  destruct (run evs w1) as [w2 eff2]. simpl in *.
  rewrite sites_app, forallb_app, H2, IH. reflexivity.
Qed.

Lemma creator_handle e w :
  creator_inv w ->
  creator_inv (fst (handle e w)) /\
  forallb creator_site (sites (snd (handle e w))) = true.
Proof.
  intros H. destruct e as [data| |code reason|c| |].
  - destruct w as [p st sl c s k fr ft]. unfold creator_inv in *. cbn in H.
    destruct H as [Hs Hq]. destruct st; try contradiction; role_cases.
  - destruct H as [Hs Hq]. repeat split; assumption.
  - cbn. destruct (onclose_cases code reason w) as [-> | [r ->]]; cbn.
    + split; [exact H|reflexivity].
    + destruct H as [Hs Hq]. repeat split; assumption.
  - destruct w as [p st sl c' s k fr ft]. unfold creator_inv in *. cbn in H.
    destruct H as [Hs Hq]. role_cases.
  - split; [exact H|reflexivity].
  - destruct w as [p st sl c s k fr ft]. unfold creator_inv in *. cbn in H.
    destruct H as [Hs Hq]. destruct st; try contradiction; role_cases.
Qed.

Lemma creator_run evs : forall w,
  creator_inv w -> forallb creator_site (sites (snd (run evs w))) = true.
Proof.
  induction evs as [|e evs IH]; intros w H; [reflexivity|].
  simpl. destruct (creator_handle e w H) as [H1 H2].
  specialize (IH _ H1).
  destruct (handle e w) as [w1 eff1]. simpl in *.
  destruct (run evs w1) as [w2 eff2]. simpl in *.
  rewrite sites_app, forallb_app, H2, IH. reflexivity.
Qed.

Lemma constructor_joiner signalserver code random w :
  constructor signalserver code random = Some w -> code <> "" ->
  joiner_inv w /\ state w = state_b /\ finishThen w = [] /\
  pass w = snd (webwormhole.decode code) /\ pc w = None.
Proof.
  unfold constructor, dial. intros H Hc.
  apply String.eqb_neq in Hc. rewrite Hc in H. cbn in H.
  destruct (webwormhole.decode code) as [n p].
  destruct (List.length p =? 0)%nat; [discriminate H|].
  inversion H; subst. repeat split.
Qed.

Lemma constructor_creator signalserver random w :
  constructor signalserver "" random = Some w ->
  creator_inv w /\ state w = state_a /\ finishThen w = [] /\
  pass w = [fst random; snd random] /\ pc w = None.
Proof.
  unfold constructor, dial. cbn. intros H.
  inversion H; subst. repeat split.
Qed.

(** The joiner's handshake: PAKE message A goes out on the announcement,
    the sealed answer when the offer has arrived and the caller has
    finished. *)
Lemma joiner_handshake w announce a pake sealed msgA k msg :
  state w = state_b -> finishThen w = [] -> ws w <> None ->
  JSON_parse_announce announce = Some a ->
  webwormhole.start (pass w) = Some msgA ->
  webwormhole.finish pake = Some k ->
  parse_opened k sealed = Object msg ->
  type_is "offer" msg = true ->
  exists answer,
    msg_type answer = Some "answer" /\
    snd (run (joiner_script announce pake sealed) w) =
    [signalResolve None; ws_send PakeA msgA;
     ws_send SealedAnswer (webwormhole.seal k (JSON_stringify answer));
     doneResolve (webwormhole.fingerprint k)].
Proof.
  destruct w as [p st sl c s k0 fr ft]. cbn.
  intros -> -> Hws Ha HA Hk Hp Ht.
  destruct s as [s|]; [|contradiction].
  unfold joiner_script. cbn. unfold onmessage at 1. cbn.
  rewrite Ha, HA. cbn. rewrite Hk. cbn. rewrite Hp, Ht. cbn.
  eexists. split; [|reflexivity]. reflexivity.
Qed.

(** The creator's handshake: PAKE message B answers message A, the sealed
    offer goes out when the caller has finished. *)
Lemma creator_handshake w announce a pake msgB k :
  state w = state_a -> finishThen w = [] -> ws w <> None ->
  JSON_parse_announce announce = Some a ->
  isSafeInteger (parseInt (msg_slot a)) = true ->
  webwormhole.exchange (pass w) pake = (Some k, msgB) ->
  exists offer,
    msg_type offer = Some "offer" /\
    snd (run (creator_script announce pake) w) =
    [signalResolve (Some (webwormhole.encode (parseInt (msg_slot a)) (pass w)));
     ws_send PakeB msgB;
     ws_send SealedOffer (webwormhole.seal k (JSON_stringify offer))].
Proof.
  destruct w as [p st sl c s k0 fr ft]. cbn.
  intros -> -> Hws Ha Hn Hx.
  destruct s as [s|]; [|contradiction].
  unfold creator_script. cbn. unfold onmessage at 1. cbn.
  rewrite Ha, Hn. cbn. rewrite Hx. cbn.
  eexists. split; [|reflexivity]. reflexivity.
Qed.

(** C1, as the code has it. The side constructed with a code sends PAKE
    message A, and of the two session descriptions it sends the answer:
    no run makes it send PAKE message B or an offer, and the handshake
    makes it send message A and then the sealed answer. The side
    constructed without a code sends PAKE message B and the offer: no run
    makes it send message A or an answer, and the handshake makes it send
    message B and then the sealed offer. *)
Theorem role_coupling signalserver code random w
  (Hnew : constructor signalserver code random = Some w) :
  (code <> "" ->
   (forall evs, forallb joiner_site (sites (snd (run evs w))) = true) /\
   (forall announce a pake sealed msgA k msg,
       ws w <> None ->
       JSON_parse_announce announce = Some a ->
       webwormhole.start (pass w) = Some msgA ->
       webwormhole.finish pake = Some k ->
       parse_opened k sealed = Object msg ->
       type_is "offer" msg = true ->
       exists answer,
         msg_type answer = Some "answer" /\
         snd (run (joiner_script announce pake sealed) w) =
         [signalResolve None; ws_send PakeA msgA;
          ws_send SealedAnswer (webwormhole.seal k (JSON_stringify answer));
          doneResolve (webwormhole.fingerprint k)])) /\
  (code = "" ->
   (forall evs, forallb creator_site (sites (snd (run evs w))) = true) /\
   (forall announce a pake msgB k,
       ws w <> None ->
       JSON_parse_announce announce = Some a ->
       isSafeInteger (parseInt (msg_slot a)) = true ->
       webwormhole.exchange (pass w) pake = (Some k, msgB) ->
       exists offer,
         msg_type offer = Some "offer" /\
         snd (run (creator_script announce pake) w) =
         [signalResolve
            (Some (webwormhole.encode (parseInt (msg_slot a)) (pass w)));
          ws_send PakeB msgB;
          ws_send SealedOffer (webwormhole.seal k (JSON_stringify offer))])).
Proof.
  split.
  - intros Hc.
    destruct (constructor_joiner _ _ _ _ Hnew Hc) as (Hi & Hs & Hq & _).
    split.
    + intros evs. apply joiner_run, Hi.
    + intros announce a pake sealed msgA k msg Hws.
      apply joiner_handshake; assumption.
  - intros ->.
    destruct (constructor_creator _ _ _ Hnew) as (Hi & Hs & Hq & _).
    split.
    + intros evs. apply creator_run, Hi.
    + intros announce a pake msgB k Hws.
      apply creator_handshake; assumption.
Qed.

End Facts.

(** ** Concrete sessions *)

Lemma toy_session_reachable code evs w :
  toy_session code evs = Some w -> @reachable toy_wasm toy_browser w.
Proof.
  unfold toy_session, toy_new, toy_run. intros H.
  destruct (@constructor toy_wasm toy_browser "https://sig.example/" code
              (x00, x00)) as [w0|] eqn:E; [|discriminate H].
  cbn in H. inversion H; subst.
  apply reachable_run. eapply reachable_new. exact E.
Qed.

Lemma forallb_not_In (f : Site -> bool) (x : Site) (l : list Site) :
  forallb f l = true -> f x = false -> ~ In x l.
Proof.
  intros Hf Hx Hin. rewrite forallb_forall in Hf.
  rewrite (Hf _ Hin) in Hx. discriminate Hx.
Qed.

(** C1, as stated, fails: the session constructed with a code sends the
    sealed answer and in no run an offer; the session constructed without a
    code sends the sealed offer and in no run an answer. *)
Lemma joiner_offers_fails :
  exists j c,
    toy_new "7-cat" = Some j /\ toy_new "" = Some c /\
    sites (snd (toy_run (joiner_script "hello" "pake-b" "sealed:offer") j)) =
      [PakeA; SealedAnswer] /\
    sites (snd (toy_run (creator_script "hello" "pake-a") c)) =
      [PakeB; SealedOffer] /\
    (forall evs, ~ In SealedOffer (sites (snd (toy_run evs j)))) /\
    (forall evs, ~ In SealedAnswer (sites (snd (toy_run evs c)))).
Proof.
  eexists _, _.
  assert (Hj : toy_new "7-cat" = Some _) by (vm_compute; reflexivity).
  assert (Hc : toy_new "" = Some _) by (vm_compute; reflexivity).
  split; [exact Hj|]. split; [exact Hc|].
  split; [vm_compute; reflexivity|]. split; [vm_compute; reflexivity|].
  split; intros evs.
  - apply (forallb_not_In joiner_site); [|reflexivity].
    apply (@joiner_run toy_wasm toy_browser).
    apply (@constructor_joiner toy_wasm toy_browser _ _ _ _ Hj). discriminate.
  - apply (forallb_not_In creator_site); [|reflexivity].
    apply (@creator_run toy_wasm toy_browser).
    apply (@constructor_creator toy_wasm toy_browser _ _ _ Hc).
Qed.

Lemma role_coupling_witness :
  exists j,
    toy_new "7-cat" = Some j /\
    forallb joiner_site
      (sites (snd (toy_run (joiner_script "hello" "pake-b" "sealed:offer") j)))
    = true.
Proof.
  eexists.
  assert (Hj : toy_new "7-cat" = Some _) by (vm_compute; reflexivity).
  split; [exact Hj|].
  assert (Hne : "7-cat" <> "") by discriminate.
  exact (proj1 (proj1 (@role_coupling toy_wasm toy_browser _ _ _ _ Hj) Hne)
           (joiner_script "hello" "pake-b" "sealed:offer")).
Defined.

(** C5, as stated, fails: after the key exchange and before the caller has
    finished, the session constructed without a code holds a key and is in
    [wait_for_pc_initialize]; a message that does not open under the key
    fails it as an unexpected message, and neither a sealed "bye" is sent
    nor the socket closed. *)
Lemma bad_key_everywhere_fails :
  ~ (forall (wasm : webwormhole.API) (browser : Browser) w k data,
        reachable w -> key w = Some k -> webwormhole.open k data = None ->
        state (fst (onmessage data w)) = error /\
        In (ws_send SealedBye (webwormhole.seal k "bye"))
           (snd (onmessage data w)) /\
        In (ws_close closeBadKey) (snd (onmessage data w))).
Proof.
  intros H.
  destruct (toy_session "" [ev_message "hello"; ev_message "pake-a"])
    as [w|] eqn:E; [|vm_compute in E; discriminate E].
  pose proof (toy_session_reachable _ _ _ E) as Hr.
  vm_compute in E. injection E as E. subst w.
  destruct (H toy_wasm toy_browser _ toy_key "garbage" Hr eq_refl eq_refl)
    as (_ & _ & Hclose).
  vm_compute in Hclose.
  repeat (destruct Hclose as [Hclose|Hclose]; [discriminate Hclose|]).
  exact Hclose.
Qed.

Lemma bad_key_fails_witness :
  exists w,
    toy_session "7-cat" [ev_message "hello"; ev_message "pake-b"] = Some w /\
    state w = wait_for_webtc_offer /\
    toy_onmessage "garbage" w =
      (set_state error w,
       [signalReject "bad key"; doneReject "bad key";
        ws_send SealedBye "sealed:bye"; ws_close 4005]) /\
    state (fst (toy_onmessage "garbage" w)) = error.
Proof.
  eexists.
  assert (E : toy_session "7-cat" [ev_message "hello"; ev_message "pake-b"]
              = Some _) by (vm_compute; reflexivity).
  split; [exact E|]. split; [reflexivity|].
  exact (@bad_key_fails toy_wasm toy_browser "garbage" _ toy_key
           (toy_session_reachable _ _ _ E) eq_refl eq_refl eq_refl).
Defined.

(** C6, as stated, fails: the creator that awaits the answer receives the
    "bye" its peer seals under the shared key; the message is not an
    answer, [JSON.parse] throws on it, and the session is still in
    [wait_for_webtc_answer]. *)
Lemma every_misfit_errors_fails :
  ~ (forall (wasm : webwormhole.API) (browser : Browser) w k data,
        reachable w -> key w = Some k ->
        (state w = wait_for_webtc_offer /\
         forall msg, parse_opened k data = Object msg ->
                     type_is "offer" msg = false) \/
        (state w = wait_for_webtc_answer /\
         forall msg, parse_opened k data = Object msg ->
                     type_is "answer" msg = false) \/
        state w = wait_for_pc_initialize ->
        state (fst (onmessage data w)) = error).
Proof.
  intros H.
  destruct (toy_session "" [ev_message "hello"; ev_message "pake-a";
                            ev_finish; ev_then])
    as [w|] eqn:E; [|vm_compute in E; discriminate E].
  pose proof (toy_session_reachable _ _ _ E) as Hr.
  vm_compute in E. injection E as E. subst w.
  specialize (H toy_wasm toy_browser _ toy_key
                (@webwormhole.seal toy_wasm toy_key "bye") Hr eq_refl).
  assert (Hs := H ltac:(right; left; split;
                        [reflexivity
                        |intros msg Hp; vm_compute in Hp; discriminate Hp])).
  vm_compute in Hs. discriminate Hs.
Qed.

Lemma inconsistent_message_fails_witness :
  exists w,
    toy_session "7-cat" [ev_message "hello"; ev_message "pake-b"] = Some w /\
    state w = wait_for_webtc_offer /\
    state (fst (toy_onmessage "sealed:answer" w)) = error /\
    pc (fst (toy_onmessage "sealed:answer" w)) = pc w /\
    snd (toy_onmessage "sealed:answer" w) =
      [signalReject "unexpected message"; doneReject "unexpected message"] /\
    state (fst (toy_onmessage "null" w)) = error /\
    toy_onmessage "sealed:bye" w = (w, [throw]).
Proof.
  eexists.
  assert (E : toy_session "7-cat" [ev_message "hello"; ev_message "pake-b"]
              = Some _) by (vm_compute; reflexivity).
  split; [exact E|]. split; [reflexivity|].
  pose proof (toy_session_reachable _ _ _ E) as Hr.
  match type of E with
  | _ = Some ?w0 =>
      assert (Ha : @inconsistent toy_wasm toy_browser w0 "sealed:answer")
        by (exists toy_key; split; reflexivity);
      assert (Hn : @inconsistent toy_wasm toy_browser w0 "null")
        by (exists toy_key; split; [reflexivity|exact I]);
      assert (Hb : @not_json toy_wasm toy_browser w0 "sealed:bye")
        by (split; [left; reflexivity|exists toy_key; split; reflexivity]);
      pose proof (proj1 (@inconsistent_message_fails toy_wasm toy_browser
                           "sealed:answer" w0 Hr) Ha)
        as (H1 & _ & H2 & _ & H3);
      pose proof (proj1 (@inconsistent_message_fails toy_wasm toy_browser
                           "null" w0 Hr) Hn) as (H4 & _);
      pose proof (proj2 (@inconsistent_message_fails toy_wasm toy_browser
                           "sealed:bye" w0 Hr) Hb) as (H5 & _)
  end.
  split; [exact H1|]. split; [exact H2|]. split.
  - destruct H3 as [H3 | (k & _ & Hf & _)]; [exact H3|].
    vm_compute in Hf. discriminate Hf.
  - split; [exact H4|exact H5].
Defined.

Lemma error_absorbs_messages_witness :
  exists w,
    toy_session "" [ev_error] = Some w /\ state w = error /\
    toy_onmessage "hello" w = (w, []).
Proof.
  eexists.
  assert (E : toy_session "" [ev_error] = Some _) by (vm_compute; reflexivity).
  split; [exact E|]. split; [reflexivity|].
  unfold toy_onmessage.
  apply (@error_absorbs_messages toy_wasm toy_browser "hello"). reflexivity.
Defined.

Lemma wsserver_slot_zero_witness :
  @wsserver toy_browser "https://sig.example/" (Some (Num 0)) =
    Some "wss://sig.example/" /\
  @wsserver toy_browser "https://sig.example/" (Some (Num 7)) =
    Some "wss://sig.example/7".
Proof.
  pose proof (@wsserver_slot_zero toy_browser "https://sig.example/")
    as (H0 & _ & H7).
  split.
  - rewrite H0. reflexivity.
  - rewrite (H7 7); [reflexivity|discriminate].
Defined.

Lemma onclose_codes_witness :
  exists w,
    toy_session "" [] = Some w /\
    state w = state_a /\
    state (fst (@onclose 1006 "abnormal" w)) = error /\
    snd (@onclose 1006 "abnormal" w) =
      [signalReject "websocket session closed: abnormal (1006)";
       doneReject "websocket session closed: abnormal (1006)"] /\
    state (fst (@onclose 4004 "" w)) = state_a /\
    snd (@onclose 4004 "" w) = [].
Proof.
  eexists.
  assert (E : toy_session "" [] = Some _) by (vm_compute; reflexivity).
  split; [exact E|]. split; [reflexivity|].
  match type of E with
  | _ = Some ?w0 =>
      assert (H6 : state (fst (@onclose 1006 "abnormal" w0)) = error /\
                   snd (@onclose 1006 "abnormal" w0) =
                     [signalReject "websocket session closed: abnormal (1006)";
                      doneReject "websocket session closed: abnormal (1006)"])
        by (refine ((fun H => conj (proj1 (proj2 H)) (proj1 (proj2 (proj2 H))))
                      (proj2 (onclose_codes 1006 "abnormal" w0) _ _ _ _ _ _));
            discriminate);
      pose proof (proj1 (onclose_codes 4004 "" w0) (or_introl eq_refl))
        as (_ & H4a & H4b)
  end.
  destruct H6 as [H6a H6b].
  split; [exact H6a|]. split; [exact H6b|]. split; [exact H4a|exact H4b].
Defined.


(** ** More on the handlers *)

Ltac branches :=
  repeat match goal with
         | |- context [match ?x with _ => _ end] =>
             lazymatch x with
             | context [match _ with _ => _ end] => fail
             | _ => let E := fresh "E" in destruct x eqn:E; cbn
             end
         end.

Ltac unfold_handlers :=
  unfold handle, onmessage, onerror, onicecandidate, run_deferred,
    bad_key, fail, finishPromise_then, makePeerConnection.

(** One goal per path through the handler of [e], the session taken
    apart; [onclose] is left folded. *)
Ltac handler_paths e w :=
  destruct e as [d_| |code_ reason_|cand_| |];
  [ destruct w as [p_ st_ sl_ c_ s_ k_ fr_ ft_]; unfold_handlers; cbn;
    destruct st_; cbn; branches
  | destruct w as [p_ st_ sl_ c_ s_ k_ fr_ ft_]; unfold_handlers; cbn
  | cbn [handle];
    destruct (onclose_cases code_ reason_ w) as [-> | [r_ ->]];
    destruct w as [p_ st_ sl_ c_ s_ k_ fr_ ft_]; unfold fail; cbn
  | destruct w as [p_ st_ sl_ c_ s_ k_ fr_ ft_]; unfold_handlers; cbn; branches
  | destruct w as [p_ st_ sl_ c_ s_ k_ fr_ ft_]; cbn
  | destruct w as [p_ st_ sl_ c_ s_ k_ fr_ ft_]; unfold_handlers; cbn; branches ].

Ltac in_cases H :=
  cbn in H;
  repeat (destruct H as [H|H]; [try discriminate H|]);
  try contradiction.

Section More.

Context {wasm : webwormhole.API} {browser : Browser}.

(** X11. Whatever a handler sends on the socket is either a PAKE message
    (message A out of [start] in state "b", message B out of [exchange] in
    [wait_for_pake_a]) or something sealed under the key the session held
    when the handler started: nothing is sent in the clear once there is a
    key, and nothing but the PAKE messages before. *)
Theorem sealed_under_key e w site payload :
  In (ws_send site payload) (snd (handle e w)) ->
  match site with
  | PakeA => state w = state_b /\ webwormhole.start (pass w) = Some payload
  | PakeB =>
      state w = wait_for_pake_a /\
      exists m k, e = ev_message m /\
                  webwormhole.exchange (pass w) m = (Some k, payload)
  | _ => exists k m, key w = Some k /\ payload = webwormhole.seal k m
  end.
Proof.
  handler_paths e w; intros Hin; in_cases Hin;
    inversion Hin; subst; cbn; eauto 6.
Qed.

(** X12. A handler that rejects one of the two promises rejects both,
    with the same reason, and leaves the session in [error]; and a handler
    that moves a session into [error] rejects both promises. *)
Theorem failure_is_reported e w :
  (forall r,
      In (signalReject r) (snd (handle e w)) \/
      In (doneReject r) (snd (handle e w)) ->
      In (signalReject r) (snd (handle e w)) /\
      In (doneReject r) (snd (handle e w)) /\
      state (fst (handle e w)) = error) /\
  (state w <> error -> state (fst (handle e w)) = error ->
   exists r, In (signalReject r) (snd (handle e w)) /\
             In (doneReject r) (snd (handle e w))).
Proof.
  handler_paths e w;
    (split;
     [ intros why Hin; destruct Hin as [Hin|Hin]; in_cases Hin;
       inversion Hin; subst; cbn; tauto
     | intros Hne Hst; try discriminate Hst;
       try (contradiction Hne; first [reflexivity | assumption]);
       eexists;
       (split; [cbn; solve [repeat first [left; reflexivity | right]]
               | cbn; tauto]) ]).
Qed.

(** X13. The fingerprint handed to the caller is that of the session's
    key, and it is handed over in one of two places. The joiner hands it
    over in the callback that has awaited [setRemoteDescription] with the
    offer (lines 296-300): the peer connection has that offer as remote
    description. The creator hands it over in the handler of the answer,
    right after calling [setRemoteDescription] with that answer and without
    waiting for it (lines 322-323): the call is the effect just before the
    fingerprint, and the peer connection of the session is what it was. *)
Theorem fingerprint_after_remote e w fp :
  In (doneResolve fp) (snd (handle e w)) ->
  exists k,
    key w = Some k /\ fp = webwormhole.fingerprint k /\
    ((e = ev_then /\
      exists sd q p,
        finishThen w = SendAnswer sd :: q /\
        pc (fst (handle e w)) = Some p /\ remoteDescription p = Some sd) \/
     (exists m sd,
        e = ev_message m /\ state w = wait_for_webtc_answer /\
        parse_opened k m = Object sd /\ type_is "answer" sd = true /\
        snd (handle e w) = [pc_setRemoteDescription sd; doneResolve fp] /\
        pc (fst (handle e w)) = pc w)).
Proof.
  handler_paths e w; intros Hin; in_cases Hin;
    inversion Hin; subst; cbn; eexists; (split; [reflexivity|]);
    (split; [reflexivity|]).
  - right. eexists _, _.
    match goal with H : negb _ = false |- _ => apply negb_false_iff in H end.
    repeat split; eassumption.
  - left. split; [reflexivity|]. eexists _, _, _. repeat split.
Qed.

(** X14. The event handlers close the socket only on a bad key: the code
    is 4005, the handler is [onmessage] in a state that opens messages, the
    message did not yield a value under the key, and the effects are the
    two rejections, the sealed "bye" and the close, in that order. *)
Theorem closes_only_on_bad_key e w code :
  In (ws_close code) (snd (handle e w)) ->
  code = closeBadKey /\ opens_messages (state w) = true /\
  state (fst (handle e w)) = error /\
  exists k m,
    e = ev_message m /\ key w = Some k /\ parse_opened k m = Falsy /\
    snd (handle e w) =
      [signalReject "bad key"; doneReject "bad key";
       ws_send SealedBye (webwormhole.seal k "bye"); ws_close closeBadKey].
Proof.
  handler_paths e w; intros Hin; in_cases Hin;
    inversion Hin; subst; cbn;
    repeat split; eexists _, _; repeat split; assumption.
Qed.

Lemma key_handle e w :
  keyed (state w) = true ->
  keyed (state (fst (handle e w))) = true /\ key (fst (handle e w)) = key w.
Proof.
  handler_paths e w; intros Hk; try discriminate Hk; split;
    first [reflexivity | assumption].
Qed.

(** X15. Past the key exchange (in any state other than "a", "b",
    [wait_for_pake_a], [wait_for_pake_b]) no sequence of events changes
    [key], and the session never gets back into one of those states. *)
Theorem key_is_final evs : forall w,
  keyed (state w) = true ->
  key (fst (run evs w)) = key w /\ keyed (state (fst (run evs w))) = true.
Proof.
  induction evs as [|e evs IH]; intros w Hk; [split; [reflexivity|exact Hk]|].
  simpl. destruct (key_handle e w Hk) as [H1 H2].
  destruct (IH _ H1) as [H3 H4].
  destruct (handle e w) as [w1 eff1]. simpl in *.
  destruct (run evs w1) as [w2 eff2]. simpl in *.
  split; [congruence|exact H4].
Qed.

Lemma quiet_handle e w :
  is_finish e = false ->
  finishResolved w = false /\ state w <> wait_for_webtc_answer /\
  unconfigured w ->
  (finishResolved (fst (handle e w)) = false /\
   state (fst (handle e w)) <> wait_for_webtc_answer /\
   unconfigured (fst (handle e w))) /\
  forallb (fun x => negb (negotiates x)) (snd (handle e w)) = true.
Proof.
  handler_paths e w; intros Hf (Hr & Hs & Hu);
    unfold unconfigured in *; cbn in *; subst;
    try discriminate; try (contradiction Hs; reflexivity);
    repeat split; try assumption; try discriminate; try reflexivity;
    try apply Hu.
Qed.

(** X16. Until the caller invokes [finish()], whatever else happens, the
    peer connection has no local description, no remote description and no
    remote candidate, [setRemoteDescription] is not called on it, no offer
    or answer is sent and the fingerprint is not handed over. *)
Theorem nothing_before_finish signalserver code random w evs :
  constructor signalserver code random = Some w ->
  forallb (fun e => negb (is_finish e)) evs = true ->
  unconfigured (fst (run evs w)) /\
  state (fst (run evs w)) <> wait_for_webtc_answer /\
  forallb (fun x => negb (negotiates x)) (snd (run evs w)) = true.
Proof.
  intros Hnew.
  assert (H0 : finishResolved w = false /\ state w <> wait_for_webtc_answer /\
               unconfigured w).
  { unfold constructor, dial in Hnew.
    destruct (negb (code =? "")%string).
    - destruct (webwormhole.decode code) as [n p].
      destruct (List.length p =? 0)%nat; [discriminate Hnew|].
      inversion Hnew; subst. repeat split. discriminate.
    - inversion Hnew; subst. repeat split. discriminate. }
  clear Hnew. revert w H0.
  induction evs as [|e evs IH]; intros w H0 Hev.
  - destruct H0 as (_ & Hs & Hu). repeat split; assumption.
  - simpl in Hev. apply andb_true_iff in Hev. destruct Hev as [He Hev].
    apply negb_true_iff in He.
    destruct (quiet_handle e w He H0) as [H1 H2].
    specialize (IH _ H1 Hev). simpl.
    destruct (handle e w) as [w1 eff1]. simpl in *.
    destruct (run evs w1) as [w2 eff2]. simpl in *.
    destruct IH as (Ha & Hb & Hc).
    split; [exact Ha|]. split; [exact Hb|].
    rewrite forallb_app, H2, Hc. reflexivity.
Qed.

(** X17. In every session the constructor and the handlers produce, the
    states [wait_for_local_offer] and [wait_for_local_answer] never occur;
    outside "a", "b" and [error] there is a socket and a peer connection;
    past the key exchange and outside [error] there is a key. *)
Theorem reachable_states w :
  reachable w ->
  state w <> wait_for_local_offer /\ state w <> wait_for_local_answer /\
  (state w <> state_a -> state w <> state_b -> state w <> error ->
   ws w <> None /\ pc w <> None) /\
  (keyed (state w) = true -> state w <> error -> key w <> None).
Proof.
  intros Hr. apply reachable_Inv in Hr. unfold Inv in Hr.
  destruct (state w); cbn;
    repeat split; try discriminate; try contradiction;
    try (intros; tauto); try (intros; exfalso; auto; fail).
Qed.








(** ** The session closer *)

Lemma fold_no_hit {A B} (test : A -> bool) (val : A -> B) (l : list A) :
  forall init,
    (forall x, In x l -> test x = false) ->
    fold_left (fun acc x => if test x then val x else acc) l init = init.
Proof.
  induction l as [|y l IH]; intros init H; [reflexivity|].
  cbn. rewrite (H y (or_introl eq_refl)). apply IH.
  intros x Hx. apply H. right. exact Hx.
Qed.

Lemma fold_last_hit {A B} (test : A -> bool) (val : A -> B) l1 y l2 init :
  test y = true -> (forall x, In x l2 -> test x = false) ->
  fold_left (fun acc x => if test x then val x else acc) (l1 ++ y :: l2) init
  = val y.
Proof.
  intros Hy H. rewrite fold_left_app. cbn. rewrite Hy. apply fold_no_hit, H.
Qed.

(** X20. [connType] is "" without a peer connection and when no candidate
    pair has succeeded; otherwise it is the candidate type of the last
    entry whose id is the local candidate of the last succeeded pair. *)
Theorem connType_selected (stats : list RTCStats) (w : Wormhole) :
  (pc w = None -> connType stats w = Some "") /\
  ((forall x, In x stats -> is_succeeded_pair x = false) ->
   connType stats w = Some "") /\
  (forall l1 pair l2 m1 cand m2 id,
      pc w <> None ->
      stats = l1 ++ pair :: l2 ->
      is_succeeded_pair pair = true ->
      (forall x, In x l2 -> is_succeeded_pair x = false) ->
      localCandidateId pair = Some id -> id <> "" ->
      stats = m1 ++ cand :: m2 ->
      stat_id cand = id ->
      (forall x, In x m2 -> stat_id x <> id) ->
      connType stats w = candidateType cand).
Proof.
  unfold connType. split; [intros ->; reflexivity|]. split.
  - intros H. destruct (pc w); [|reflexivity].
    unfold selected_id. rewrite fold_no_hit; [reflexivity|exact H].
  - intros l1 pair l2 m1 cand m2 id Hpc E1 Hp Hl2 Hid Hne E2 Hc Hm2.
    destruct (pc w); [|contradiction].
    unfold selected_id. rewrite E1 at 1. rewrite fold_last_hit; [|exact Hp|exact Hl2].
    rewrite Hid. apply String.eqb_neq in Hne. rewrite Hne.
    unfold type_of_id. rewrite E2.
    rewrite (fold_last_hit (fun s => (stat_id s =? id)%string) candidateType).
    + reflexivity.
    + apply String.eqb_eq. exact Hc.
    + intros x Hx. apply String.eqb_neq. apply Hm2. exact Hx.
Qed.

(** X21. [close] has at most one effect, a close of the socket with a code
    from 4006 to 4009, and has one exactly when there are a socket and a
    peer connection and the ICE state is "connected" or "failed"; 4009
    goes with "failed", and with "connected" 4007 with a host, srflx or
    prflx candidate, 4008 with a relay candidate, 4006 with anything else. *)
Theorem close_codes (ice : string) (stats : list RTCStats) (w : Wormhole) :
  (close ice stats w = [] \/
   exists code, close ice stats w = [ws_close code] /\ 4006 <= code <= 4009) /\
  (close ice stats w <> [] <->
   ws w <> None /\ pc w <> None /\ (ice = "connected" \/ ice = "failed")) /\
  (forall code, In (ws_close code) (close ice stats w) ->
     (code = closeWebRTCFailed <-> ice = "failed") /\
     (code = closeWebRTCSuccessDirect <->
      ice = "connected" /\ is_direct (connType stats w) = true) /\
     (code = closeWebRTCSuccessRelay <->
      ice = "connected" /\ is_direct (connType stats w) = false /\
      is_relay (connType stats w) = true) /\
     (code = closeWebRTCSuccess <->
      ice = "connected" /\ is_direct (connType stats w) = false /\
      is_relay (connType stats w) = false)).
Proof.
  unfold close, closeWebRTCFailed, closeWebRTCSuccessDirect,
    closeWebRTCSuccessRelay, closeWebRTCSuccess.
  destruct (ws w) as [s|], (pc w) as [p|];
    try (split; [left; reflexivity|];
         split; [split; [intros H; contradiction H; reflexivity
                        |intros (H1 & H2 & _); contradiction]
                |intros code []]).
  destruct (ice =? "connected")%string eqn:Ec.
  - apply String.eqb_eq in Ec. subst ice.
    destruct (is_direct (connType stats (_))) eqn:Ed;
      [|destruct (is_relay (connType stats (_))) eqn:Er];
      (split; [right; eexists; split; [reflexivity|lia]|]);
      (split; [split; [intros _; repeat split; try discriminate; left; reflexivity
                      |discriminate]|]);
      intros code [Hc|[]]; inversion Hc; subst;
      repeat split; try discriminate; try reflexivity;
      try (intros [? ?]; discriminate);
      try (intros (? & ? & ?); discriminate);
      try (intros H; discriminate H).
  - destruct (ice =? "failed")%string eqn:Ef.
    + apply String.eqb_eq in Ef. subst ice.
      split; [right; eexists; split; [reflexivity|lia]|].
      split; [split; [intros _; repeat split; try discriminate; right; reflexivity
                     |discriminate]|].
      intros code [Hc|[]]; inversion Hc; subst.
      repeat split; try discriminate; try reflexivity;
        try (intros [H ?]; discriminate H);
        try (intros H; discriminate H).
    + apply String.eqb_neq in Ec, Ef.
      split; [left; reflexivity|].
      split; [split; [intros H; contradiction H; reflexivity
                     |intros (_ & _ & [H|H]); contradiction]
             |intros code []].
Qed.

(** ** [wsserver] and the constructor *)

Lemma prefix_nil (x : string) : String.prefix "" x = true.
Proof. destruct x; reflexivity. Qed.

Lemma prefix_slash_app (p s : string) :
  String.prefix "/" p = true -> String.prefix "/" (p ++ s) = true.
Proof.
  intros H. destruct p as [|a p]; [discriminate H|].
  cbn [String.prefix append] in *.
  destruct (Ascii.ascii_dec "/" a); [|discriminate H].
  apply prefix_nil.
Qed.

Lemma prefix_slash_cons (p : string) : String.prefix "/" ("/" ++ p) = true.
Proof.
  cbn [String.prefix append].
  destruct (Ascii.ascii_dec "/" "/") as [_|n]; [apply prefix_nil|].
  contradiction n; reflexivity.
Qed.

(** X22. [wsserver] throws exactly when [new URL] does; otherwise its
    address is "ws://" followed by host and path when the URL's protocol is
    "http:", "wss://" followed by host and path for every other protocol,
    and the path begins with "/". *)
Theorem wsserver_address (url : string) (slot : option number) :
  (wsserver url slot = None <-> new_URL url = None) /\
  (forall a, wsserver url slot = Some a ->
     exists u path,
       new_URL url = Some u /\
       String.prefix "/" path = true /\
       ((URL.protocol u = "http:" /\
         a = ("ws://" ++ URL.host u ++ path)%string) \/
        (URL.protocol u <> "http:" /\
         a = ("wss://" ++ URL.host u ++ path)%string))).
Proof.
  unfold wsserver. destruct (new_URL url) as [u|].
  - split; [split; discriminate|].
    intros a Ha. inversion Ha; subst; clear Ha.
    exists u.
    set (path0 := if String.prefix "/" (URL.pathname u)
                  then URL.pathname u else ("/" ++ URL.pathname u)%string).
    assert (H0 : String.prefix "/" path0 = true).
    { unfold path0. destruct (String.prefix "/" (URL.pathname u)) eqn:E;
        [exact E|apply prefix_slash_cons]. }
    exists (if truthy slot then (path0 ++ slot_toString slot)%string else path0).
    split; [reflexivity|]. split.
    + destruct (truthy slot); [apply prefix_slash_app|]; exact H0.
    + destruct (URL.protocol u =? "http:")%string eqn:E.
      * left. apply String.eqb_eq in E. split; [exact E|reflexivity].
      * right. apply String.eqb_neq in E. split; [exact E|reflexivity].
  - split; [split; reflexivity|discriminate].
Qed.

(** X23. The constructor throws exactly when a code is given whose
    password decodes to nothing. Otherwise the session has no key, no peer
    connection, nothing pending and a socket at [wsserver] of the server
    and the slot; without a code it starts in "a" with no slot and a
    password of two random bytes, with a code in "b" with the slot and the
    non-empty password of the code. *)
Theorem constructor_cases (signalserver code : string) (random : byte * byte) :
  (constructor signalserver code random = None <->
   code <> "" /\ snd (webwormhole.decode code) = []) /\
  (forall w, constructor signalserver code random = Some w ->
     key w = None /\ pc w = None /\ finishThen w = [] /\
     finishResolved w = false /\
     ws w = option_map (fun u => {| WebSocket.url := u;
                                    WebSocket.protocol := "4" |})
                       (wsserver signalserver (slot w)) /\
     (code = "" ->
      state w = state_a /\ slot w = None /\
      pass w = [fst random; snd random]) /\
     (code <> "" ->
      state w = state_b /\ slot w = Some (fst (webwormhole.decode code)) /\
      pass w = snd (webwormhole.decode code) /\ pass w <> [])).
Proof.
  unfold constructor, dial.
  destruct (code =? "")%string eqn:Ec; cbn.
  - apply String.eqb_eq in Ec. subst code. split.
    + split; [discriminate|intros [H _]; contradiction H; reflexivity].
    + intros w H. inversion H; subst; cbn.
      split; [reflexivity|]. split; [reflexivity|]. split; [reflexivity|].
      split; [reflexivity|]. split; [reflexivity|]. split.
      * intros _. repeat split.
      * intros Hne. contradiction Hne; reflexivity.
  - apply String.eqb_neq in Ec.
    destruct (webwormhole.decode code) as [n p]. cbn.
    destruct p as [|b p]; cbn.
    + split; [split; [intros _; split; [exact Ec|reflexivity]|reflexivity]|].
      intros w H; discriminate H.
    + split; [split; [discriminate|intros [_ H]; discriminate H]|].
      intros w H. inversion H; subst; cbn.
      split; [reflexivity|]. split; [reflexivity|]. split; [reflexivity|].
      split; [reflexivity|]. split; [reflexivity|]. split.
      * intros Hc; contradiction.
      * intros _. repeat split. discriminate.
Qed.

End More.

(** ** Concrete sessions for the above *)

Lemma sealed_under_key_witness :
  exists w,
    toy_new "7-cat" = Some w /\
    In (ws_send PakeA "pake-a")
       (snd (@handle toy_wasm toy_browser (ev_message "hello") w)) /\
    state w = state_b.
Proof.
  eexists.
  assert (Hn : toy_new "7-cat" = Some _) by (vm_compute; reflexivity).
  split; [exact Hn|].
  match type of Hn with
  | _ = Some ?w0 =>
      assert (Hin : In (ws_send PakeA "pake-a")
                       (snd (@handle toy_wasm toy_browser
                               (ev_message "hello") w0)))
        by (vm_compute; tauto)
  end.
  split; [exact Hin|].
  exact (proj1 (@sealed_under_key toy_wasm toy_browser _ _ _ _ Hin)).
Defined.

Lemma fingerprint_after_remote_witness :
  (exists w,
     toy_session "" [ev_message "hello"; ev_message "pake-a"; ev_finish; ev_then]
       = Some w /\
     In (doneResolve toy_key)
        (snd (@handle toy_wasm toy_browser (ev_message "sealed:answer") w)) /\
     exists sd,
       snd (@handle toy_wasm toy_browser (ev_message "sealed:answer") w) =
         [pc_setRemoteDescription sd; doneResolve toy_key] /\
       pc (fst (@handle toy_wasm toy_browser (ev_message "sealed:answer") w))
         = pc w) /\
  (exists w,
     toy_session "7-cat" [ev_message "hello"; ev_message "pake-b";
                          ev_message "sealed:offer"; ev_finish] = Some w /\
     In (doneResolve toy_key) (snd (@handle toy_wasm toy_browser ev_then w)) /\
     exists sd q p,
       finishThen w = SendAnswer sd :: q /\
       pc (fst (@handle toy_wasm toy_browser ev_then w)) = Some p /\
       remoteDescription p = Some sd).
Proof.
  split.
  - eexists.
    assert (E : toy_session ""
                  [ev_message "hello"; ev_message "pake-a"; ev_finish; ev_then]
                = Some _) by (vm_compute; reflexivity).
    split; [exact E|].
    match type of E with
    | _ = Some ?w0 =>
        assert (Hin : In (doneResolve toy_key)
                         (snd (@handle toy_wasm toy_browser
                                 (ev_message "sealed:answer") w0)))
          by (vm_compute; tauto)
    end.
    split; [exact Hin|].
    destruct (@fingerprint_after_remote toy_wasm toy_browser _ _ _ Hin)
      as (k & _ & _ & [[He _] | (m & sd & _ & _ & _ & _ & Hs & Hp)]).
    + discriminate He.
    + exists sd. split; [exact Hs|exact Hp].
  - eexists.
    assert (E : toy_session "7-cat"
                  [ev_message "hello"; ev_message "pake-b";
                   ev_message "sealed:offer"; ev_finish]
                = Some _) by (vm_compute; reflexivity).
    split; [exact E|].
    match type of E with
    | _ = Some ?w0 =>
        assert (Hin : In (doneResolve toy_key)
                         (snd (@handle toy_wasm toy_browser ev_then w0)))
          by (vm_compute; tauto)
    end.
    split; [exact Hin|].
    destruct (@fingerprint_after_remote toy_wasm toy_browser _ _ _ Hin)
      as (k & _ & _ & [[_ H] | (m & sd & He & _)]).
    + exact H.
    + discriminate He.
Defined.

Lemma closes_only_on_bad_key_witness :
  exists w,
    toy_session "7-cat" [ev_message "hello"; ev_message "pake-b"] = Some w /\
    In (ws_close 4005)
       (snd (@handle toy_wasm toy_browser (ev_message "garbage") w)) /\
    state (fst (@handle toy_wasm toy_browser (ev_message "garbage") w)) = error.
Proof.
  eexists.
  assert (E : toy_session "7-cat" [ev_message "hello"; ev_message "pake-b"]
              = Some _) by (vm_compute; reflexivity).
  split; [exact E|].
  match type of E with
  | _ = Some ?w0 =>
      assert (Hin : In (ws_close 4005)
                       (snd (@handle toy_wasm toy_browser
                               (ev_message "garbage") w0)))
        by (vm_compute; tauto)
  end.
  split; [exact Hin|].
  exact (proj1 (proj2 (proj2
           (@closes_only_on_bad_key toy_wasm toy_browser _ _ _ Hin)))).
Defined.

Lemma key_is_final_witness :
  exists w,
    toy_session "7-cat" [ev_message "hello"; ev_message "pake-b"] = Some w /\
    keyed (state w) = true /\
    key (fst (toy_run [ev_message "sealed:offer"; ev_finish; ev_then;
                       ev_message "garbage"; ev_close 1006 ""] w)) =
    Some toy_key.
Proof.
  eexists.
  assert (E : toy_session "7-cat" [ev_message "hello"; ev_message "pake-b"]
              = Some _) by (vm_compute; reflexivity).
  split; [exact E|]. split; [reflexivity|].
  refine (proj1 (@key_is_final toy_wasm toy_browser _ _ _)). reflexivity.
Defined.

Lemma nothing_before_finish_witness :
  exists w,
    toy_new "" = Some w /\
    unconfigured
      (fst (toy_run [ev_message "hello"; ev_message "pake-a"; ev_then;
                     ev_icecandidate (Some toy_offer)] w)) /\
    sites (snd (toy_run [ev_message "hello"; ev_message "pake-a"; ev_then;
                         ev_icecandidate (Some toy_offer)] w)) =
      [PakeB; SealedCandidate].
Proof.
  eexists.
  assert (Hn : toy_new "" = Some _) by (vm_compute; reflexivity).
  split; [exact Hn|].
  split; [|vm_compute; reflexivity].
  refine (proj1 (@nothing_before_finish toy_wasm toy_browser _ _ _ _ _ Hn _)).
  reflexivity.
Defined.

Lemma reachable_states_witness :
  exists w,
    toy_session "7-cat" [ev_message "hello"; ev_message "pake-b"] = Some w /\
    state w = wait_for_webtc_offer /\ key w <> None.
Proof.
  eexists.
  assert (E : toy_session "7-cat" [ev_message "hello"; ev_message "pake-b"]
              = Some _) by (vm_compute; reflexivity).
  split; [exact E|]. split; [reflexivity|].
  refine (proj2 (proj2 (proj2
            (@reachable_states toy_wasm toy_browser _
               (toy_session_reachable _ _ _ E)))) _ _);
    [reflexivity|discriminate].
Defined.



End WWProofs.
